(** * Pull-over traffic rule (modules/planning/tasks/traffic_decider/pull_over.cc)

    A shallow embedding of [PullOver]: the stop-site validator
    ([IsValidStop]), the forward scanner ([FindPullOverStop]), the cache
    reuse of [GetPullOverStop], the two build paths and [ApplyRule].

    Conventions.
    - A C++ [double] is an exact rational ([Q]); comparisons are the
      boolean ones the code branches on.  Rounding, NaN and infinities
      are outside this model.
    - The reference line, the base map, the vehicle and rule
      configuration and the frame's obstacle factory are collaborators
      whose code is not part of this file: they are the fields of
      [World].
    - The planning status singleton and the path decision of the
      reference line info are the mutable [Store], passed explicitly.
    - Dereferencing the null [lane] pointer is the outcome [Fault].
    - [Event]s are ghost: they record the scanner's calls so that
      theorems can count loop iterations and validation attempts. *)

From Stdlib Require Import QArith Qround Lqa ZArith List String Bool Lia.
Import ListNotations.
Local Open Scope Q_scope.

(** ** Doubles *)

Definition double := Q.

(** [a < b], [a > b], [a >= b], [a <= b] on doubles. *)
Definition Qltb (a b : double) : bool := negb (Qle_bool b a).
Definition Qgtb (a b : double) : bool := Qltb b a.
Definition Qgeb (a b : double) : bool := Qle_bool b a.
Definition Qleb (a b : double) : bool := Qle_bool a b.

(** [std::min(a, b)] is [(b < a) ? b : a]. *)
Definition std_min (a b : double) : double := if Qltb b a then b else a.

(** ** Messages and geometry records *)

Record PointENU := mkPointENU { x : double; y : double; z : double }.

Definition set_x (p : PointENU) (v : double) : PointENU :=
  {| x := v; y := y p; z := z p |}.
Definition set_y (p : PointENU) (v : double) : PointENU :=
  {| x := x p; y := v; z := z p |}.
Definition set_z (p : PointENU) (v : double) : PointENU :=
  {| x := x p; y := y p; z := v |}.

Record Vec2d := mkVec2d { vx : double; vy : double }.

(** [XYToSL] is a template over anything with [x()] and [y()]. *)
Definition xy_of (p : PointENU) : Vec2d := {| vx := x p; vy := y p |}.

Record SLPoint := mkSLPoint { s : double; l : double }.

Record SLBoundary := mkSLBoundary {
  start_s : double; end_s : double; start_l : double; end_l : double }.

Record ReferencePoint := mkReferencePoint {
  rx : double; ry : double; heading : double }.

Record PathOverlap := mkPathOverlap { ov_start_s : double; ov_end_s : double }.

Inductive LaneTurn := NO_TURN | LEFT_TURN | RIGHT_TURN | U_TURN.
Inductive LaneType := NONE | CITY_DRIVING | BIKING | SIDEWALK | PARKING.

Definition LaneTurn_eqb (a b : LaneTurn) : bool :=
  match a, b with
  | NO_TURN, NO_TURN | LEFT_TURN, LEFT_TURN
  | RIGHT_TURN, RIGHT_TURN | U_TURN, U_TURN => true
  | _, _ => false
  end.

Definition LaneType_eqb (a b : LaneType) : bool :=
  match a, b with
  | NONE, NONE | CITY_DRIVING, CITY_DRIVING | BIKING, BIKING
  | SIDEWALK, SIDEWALK | PARKING, PARKING => true
  | _, _ => false
  end.

Record LaneInfo := mkLaneInfo {
  lane_id : string;
  turn : LaneTurn;
  lane_type : LaneType;
  right_neighbor_forward_lane_id : list string }.

Record Obstacle := mkObstacle {
  ObstacleId : string; IsVirtual : bool; IsStatic : bool }.

Record PathObstacle := mkPathObstacle {
  obstacle : Obstacle; PerceptionSLBoundary : SLBoundary }.

Definition Id (po : PathObstacle) : string := ObstacleId (obstacle po).

Inductive StopReasonCode := STOP_REASON_PULL_OVER.

Record StopDecision := mkStopDecision {
  reason_code : StopReasonCode;
  distance_s : double;
  stop_heading : double;
  sd_stop_point : PointENU }.

(** ** Configuration *)

Record PullOverConfig := mkPullOverConfig {
  operation_length : double;
  buffer_to_boundary : double;
  max_check_distance : double;
  plan_distance : double;
  stop_distance : double }.

Record VehicleParam := mkVehicleParam { width : double; length : double }.

(** ** The collaborators *)

Record World := mkWorld {
  (* reference_line_info_->reference_line() *)
  Length : double;
  XYToSL : Vec2d -> SLPoint;
  SLToXY : SLPoint -> Vec2d;
  GetReferencePoint : double -> ReferencePoint;
  (* [None]: the call returned false and left both out-parameters alone *)
  GetRoadWidth : double -> option (double * double);
  GetLaneFromS : double -> list LaneInfo;
  crosswalk_overlaps : list PathOverlap;
  junction_overlaps : list PathOverlap;
  clear_area_overlaps : list PathOverlap;
  speed_bump_overlaps : list PathOverlap;
  (* HDMapUtil::BaseMapPtr() *)
  GetLaneById : string -> option LaneInfo;
  (* reference_line_info_->AdcSlBoundary() *)
  AdcSlBoundary : SLBoundary;
  (* VehicleConfigHelper::GetConfig().vehicle_param() *)
  vehicle_param : VehicleParam;
  (* config_.pull_over(), config_.rule_id() *)
  pull_over_config : PullOverConfig;
  RuleId_Name : string;
  (* constants of pull_over.h *)
  PARKING_SPOT_LONGITUDINAL_BUFFER : double;
  PULL_OVER_VO_ID_PREFIX : string;
  (* generated protobuf code *)
  PullOverStatus_Reason_Name : Z -> string;
  Reason_default : Z;
  PointENU_default : PointENU;
  (* frame_->CreateStopObstacle, reference_line_info_->AddObstacle *)
  CreateStopObstacle : string -> double -> option Obstacle;
  AddObstacle : Obstacle -> option PathObstacle }.

(** ** The mutable store *)

Record PullOverStatus := mkPullOverStatus {
  in_pull_over : bool;
  reason : Z;
  status_start_point : option PointENU;
  status_stop_point : option PointENU;
  status_stop_point_heading : option double }.

Record Store := mkStore {
  (* GetPlanningStatus()->planning_state(): the optional pull_over field *)
  pull_over : option PullOverStatus;
  (* reference_line_info_->path_decision() *)
  path_obstacles : list PathObstacle;
  longitudinal_decisions : list (string * string * StopDecision) }.

Definition PullOverStatus_default (w : World) : PullOverStatus :=
  {| in_pull_over := false; reason := Reason_default w;
     status_start_point := None; status_stop_point := None;
     status_stop_point_heading := None |}.

(** [planning_state.pull_over()]: the field, or the default instance. *)
Definition get_pull_over (w : World) (st : Store) : PullOverStatus :=
  match pull_over st with
  | Some po => po
  | None => PullOverStatus_default w
  end.

Definition has_pull_over (st : Store) : bool :=
  match pull_over st with Some _ => true | None => false end.



(** [mutable_start_point()] / [mutable_stop_point()]: the sub-message,
    created with its defaults when absent. *)
Definition mutable_point (w : World) (o : option PointENU) : PointENU :=
  match o with Some p => p | None => PointENU_default w end.

Definition clear_pull_over (st : Store) : Store :=
  {| pull_over := None;
     path_obstacles := path_obstacles st;
     longitudinal_decisions := longitudinal_decisions st |}.

(** ** Outcomes and ghost events *)

Inductive Outcome (A : Type) : Type :=
| Fault : Outcome A          (* null [lane] dereferenced *)
| Done : A -> Outcome A.
Arguments Fault {A}.
Arguments Done {A} _.

Inductive Event :=
| EvGetLaneFromS (check_s : double)          (* one pass of the while loop *)
| EvFindPullOverStop (check_s : double) (ret : Z). (* a parking spot check *)

Definition is_sample (e : Event) : bool :=
  match e with EvGetLaneFromS _ => true | EvFindPullOverStop _ _ => false end.


(** Number of loop iterations recorded in a trace. *)
Definition iterations (tr : list Event) : nat :=
  List.length (filter is_sample tr).

(** ** IsPullOver *)

Definition IsPullOver (w : World) (st : Store) : bool :=
  has_pull_over st && in_pull_over (get_pull_over w st).

(** ** IsValidStop *)

Definition parking_spot_boundary (w : World) (stop_point_sl : SLPoint)
  : SLBoundary :=
  let adc_width := width (vehicle_param w) in
  let adc_length := length (vehicle_param w) in
  {| start_s := s stop_point_sl - adc_length
                - PARKING_SPOT_LONGITUDINAL_BUFFER w;
     end_s := s stop_point_sl + PARKING_SPOT_LONGITUDINAL_BUFFER w;
     start_l := l stop_point_sl - adc_width / 2
                - buffer_to_boundary (pull_over_config w);
     end_l := l stop_point_sl + adc_width / 2 |}.

(** The condition of the [if] at lines 133-136. *)
Definition overlap (parking obstacle_sl : SLBoundary) : bool :=
  negb (Qgtb (start_s parking) (end_s obstacle_sl)
        || Qgtb (start_s obstacle_sl) (end_s parking)
        || Qgtb (start_l parking) (end_l obstacle_sl)
        || Qgtb (start_l obstacle_sl) (end_l parking)).

(** The loop over [path_obstacles().Items()]: [false] at the first
    static, non-virtual obstacle that overlaps. *)
Fixpoint check_obstacles (parking : SLBoundary) (items : list PathObstacle)
  : bool :=
  match items with
  | [] => true
  | path_obstacle :: rest =>
      if IsVirtual (obstacle path_obstacle)
         || negb (IsStatic (obstacle path_obstacle))
      then check_obstacles parking rest
      else if overlap parking (PerceptionSLBoundary path_obstacle)
           then false
           else check_obstacles parking rest
  end.

Definition out_of_range (w : World) (v : double) : bool :=
  Qltb v 0 || Qgtb v (Length w).

Definition IsValidStop (w : World) (st : Store) (stop_point_sl : SLPoint)
  : bool :=
  if out_of_range w (s stop_point_sl) then false
  else
    let adc_front_edge_s := end_s (AdcSlBoundary w) in
    if Qltb (s stop_point_sl - adc_front_edge_s)
            (operation_length (pull_over_config w))
    then false
    else check_obstacles (parking_spot_boundary w stop_point_sl)
                         (path_obstacles st).

Definition IsValidStop_xy (w : World) (st : Store) (stop_point : PointENU)
  : bool :=
  IsValidStop w st (XYToSL w (xy_of stop_point)).

(** ** OnOverlap *)

Definition within (v : double) (o : PathOverlap) : bool :=
  Qgeb v (ov_start_s o) && Qleb v (ov_end_s o).

Definition OnOverlap (w : World) (v : double) : bool :=
  if existsb (within v) (crosswalk_overlaps w) then true
  else if existsb (within v) (junction_overlaps w) then true
  else if existsb (within v) (clear_area_overlaps w) then true
  else if existsb (within v) (speed_bump_overlaps w) then true
  else false.

(** ** FindPullOverStop(stop_point_s, stop_point) *)

(** One [GetRoadWidth] call: the previous value of [road_right_width]
    survives a failed call. *)
Definition road_right_width_at (w : World) (v : double) (prev : double)
  : double :=
  match GetRoadWidth w v with
  | Some (_, road_right_width) => road_right_width
  | None => prev
  end.

(** Lines 228-260: the SL point of the parking spot at [stop_point_s]. *)
Definition stop_point_sl_at (w : World) (stop_point_s : double) : SLPoint :=
  let adc_width := width (vehicle_param w) in
  let adc_length := length (vehicle_param w) in
  let road_right_width := 0 in
  let parking_spot_end_s :=
    stop_point_s + PARKING_SPOT_LONGITUDINAL_BUFFER w in
  let road_right_width :=
    road_right_width_at w parking_spot_end_s road_right_width in
  let parking_spot_end_s_road_right_width := road_right_width in
  let adc_center_s := stop_point_s - adc_length / 2 in
  let road_right_width :=
    road_right_width_at w adc_center_s road_right_width in
  let adc_center_s_road_right_width := road_right_width in
  let parking_spot_start_s :=
    stop_point_s - adc_length - PARKING_SPOT_LONGITUDINAL_BUFFER w in
  let road_right_width :=
    road_right_width_at w parking_spot_start_s road_right_width in
  let parking_spot_start_s_road_right_width := road_right_width in
  let road_right_width :=
    std_min (std_min parking_spot_end_s_road_right_width
                     adc_center_s_road_right_width)
            parking_spot_start_s_road_right_width in
  {| s := stop_point_s;
     l := - (road_right_width - adc_width / 2
             - buffer_to_boundary (pull_over_config w)) |}.

(** Returns the [int] and the value of the out-parameter. *)
Definition FindPullOverStop_at (w : World) (st : Store)
    (stop_point_s : double) (stop_point : PointENU) : Z * PointENU :=
  if out_of_range w stop_point_s then ((-1)%Z, stop_point)
  else
    let stop_point_sl := stop_point_sl_at w stop_point_s in
    if IsValidStop w st stop_point_sl then
      let point := SLToXY w stop_point_sl in
      (0%Z, set_y (set_x stop_point (vx point)) (vy point))
    else ((-1)%Z, stop_point).

(** ** FindPullOverStop(stop_point): the scanner *)

Definition kDistanceUnit : double := 5.

(** The loop's three locals. *)
Record ScanVars := mkScanVars {
  check_length : double; total_check_length : double; check_s : double }.

(** What one pass of the loop body does next. *)
Inductive Flow :=
| Continue (v : ScanVars)          (* [continue], or the end of the body *)
| Return0 (stop_point : PointENU)  (* [return 0] *)
| NullDeref.                       (* [lane->lane()] with [lane] null *)

(** Lines 288-299: the first lane whose id differs from [prev_lane_id]. *)
Fixpoint next_lane (prev_lane_id : string) (lanes : list LaneInfo)
  : option LaneInfo :=
  match lanes with
  | [] => None
  | temp_lane :: rest =>
      if String.eqb (lane_id temp_lane) prev_lane_id
      then next_lane prev_lane_id rest
      else Some temp_lane
  end.

(** Lines 315-332. *)
Fixpoint rightmost_driving_lane (w : World) (neighbors : list string) : bool :=
  match neighbors with
  | [] => true
  | neighbor_lane_id :: rest =>
      match GetLaneById w neighbor_lane_id with
      | None => rightmost_driving_lane w rest
      | Some neighbor_lane =>
          if LaneType_eqb (lane_type neighbor_lane) CITY_DRIVING then false
          else rightmost_driving_lane w rest
      end
  end.

(** [check_length = 0.0]. *)
Definition reset (v : ScanVars) : ScanVars :=
  {| check_length := 0;
     total_check_length := total_check_length v;
     check_s := check_s v |}.

(** Lines 284-285: [check_s += kDistanceUnit; total_check_length +=
    kDistanceUnit]. *)
Definition advance (v : ScanVars) : ScanVars :=
  {| check_length := check_length v;
     total_check_length := total_check_length v + kDistanceUnit;
     check_s := check_s v + kDistanceUnit |}.

(** Line 345: [check_length += kDistanceUnit]. *)
Definition extend (v : ScanVars) : ScanVars :=
  {| check_length := check_length v + kDistanceUnit;
     total_check_length := total_check_length v;
     check_s := check_s v |}.

(** Lines 284-360, entered with the loop condition true. *)
Definition loop_body (w : World) (st : Store) (v0 : ScanVars)
    (stop_point : PointENU) : list Event * Flow :=
  let v := advance v0 in
  let prev_lane_id := EmptyString in
  let lanes := GetLaneFromS w (check_s v) in
  match next_lane prev_lane_id lanes with
  | None => ([EvGetLaneFromS (check_s v)], NullDeref)
  | Some lane =>
      if negb (LaneTurn_eqb (turn lane) NO_TURN) then
        ([EvGetLaneFromS (check_s v)], Continue (reset v))
      else if negb (rightmost_driving_lane w
                      (right_neighbor_forward_lane_id lane)) then
        ([EvGetLaneFromS (check_s v)], Continue (reset v))
      else if OnOverlap w (check_s v) then
        ([EvGetLaneFromS (check_s v)], Continue (reset v))
      else
        let v := extend v in
        if Qgeb (check_length v) (plan_distance (pull_over_config w)) then
          let '(ret, point) :=
            FindPullOverStop_at w st (check_s v) (PointENU_default w) in
          if negb (ret =? 0)%Z then
            ([EvGetLaneFromS (check_s v); EvFindPullOverStop (check_s v) ret],
             Continue (reset v))
          else
            ([EvGetLaneFromS (check_s v); EvFindPullOverStop (check_s v) ret],
             Return0 (set_y (set_x stop_point (x point)) (y point)))
        else ([EvGetLaneFromS (check_s v)], Continue v)
  end.

Definition with_events {A : Type} (ev : list Event) (r : list Event * A)
  : list Event * A :=
  (ev ++ fst r, snd r)%list.

(** The [while] loop.  [fuel] bounds the number of passes; [None] means
    the bound was hit with the loop condition still true. *)
Fixpoint scan_loop (w : World) (st : Store) (fuel : nat) (v : ScanVars)
    (stop_point : PointENU)
  : option (list Event * Outcome (Z * PointENU)) :=
  if Qltb (total_check_length v) (max_check_distance (pull_over_config w))
  then
    match fuel with
    | O => None
    | S fuel' =>
        match loop_body w st v stop_point with
        | (ev, Continue v') =>
            option_map (with_events ev) (scan_loop w st fuel' v' stop_point)
        | (ev, Return0 p) => Some (ev, Done (0%Z, p))
        | (ev, NullDeref) => Some (ev, Fault)
        end
    end
  else Some ([], Done ((-1)%Z, stop_point)).

Definition scan_init (w : World) : ScanVars :=
  let adc_front_edge_s := end_s (AdcSlBoundary w) in
  {| check_length := 0; total_check_length := 0; check_s := adc_front_edge_s |}.

Definition FindPullOverStop (w : World) (st : Store) (fuel : nat)
    (stop_point : PointENU)
  : option (list Event * Outcome (Z * PointENU)) :=
  scan_loop w st fuel (scan_init w) stop_point.

(** ** GetPullOverStop *)

Definition GetPullOverStop (w : World) (st : Store) (fuel : nat)
    (stop_point : PointENU)
  : option (list Event * Outcome (Z * PointENU)) :=
  let pull_over_status := get_pull_over w st in
  let '(stop_point, reuse) :=
    match status_start_point pull_over_status,
          status_stop_point pull_over_status with
    | Some _, Some cached =>
        let stop_point := set_y (set_x stop_point (x cached)) (y cached) in
        if IsValidStop_xy w st stop_point
        then (set_y (set_x stop_point (x cached)) (y cached), true)
        else (stop_point, false)
    | _, _ => (stop_point, false)
    end in
  if reuse then Some ([], Done (0%Z, stop_point))
  else
    match FindPullOverStop w st fuel stop_point with
    | None => None
    | Some (tr, Fault) => Some (tr, Fault)
    | Some (tr, Done (ret, p)) =>
        if (ret =? 0)%Z then Some (tr, Done (0%Z, p))
        else Some (tr, Done ((-1)%Z, p))
    end.

(** ** BuildStopDecision *)

Definition BuildStopDecision (w : World) (st : Store) (stop_line_s : double)
    (stop_point : PointENU) (stop_point_heading : double) : Z * Store :=
  if out_of_range w stop_line_s then ((-1)%Z, st)
  else
    let pull_over_reason := reason (get_pull_over w st) in
    let virtual_obstacle_id :=
      (PULL_OVER_VO_ID_PREFIX w
       ++ PullOverStatus_Reason_Name w pull_over_reason)%string in
    match CreateStopObstacle w virtual_obstacle_id stop_line_s with
    | None => ((-1)%Z, st)
    | Some obstacle =>
        match AddObstacle w obstacle with
        | None => ((-1)%Z, st)
        | Some stop_wall =>
            let stop :=
              {| reason_code := STOP_REASON_PULL_OVER;
                 distance_s := - stop_distance (pull_over_config w);
                 stop_heading := stop_point_heading;
                 sd_stop_point :=
                   set_z (set_y (set_x (PointENU_default w) (x stop_point))
                                (y stop_point)) 0 |} in
            (0%Z,
             {| pull_over := pull_over st;
                path_obstacles := (path_obstacles st ++ [stop_wall])%list;
                longitudinal_decisions :=
                  (longitudinal_decisions st
                   ++ [(RuleId_Name w, Id stop_wall, stop)])%list |})
        end
    end.

(** ** BuildPullOverStop *)

Definition BuildPullOverStop (w : World) (st : Store) (stop_point : PointENU)
  : Z * Store :=
  let stop_point_sl := XYToSL w (xy_of stop_point) in
  let stop_point_heading :=
    heading (GetReferencePoint w (s stop_point_sl)) in
  let '(_, st) :=
    BuildStopDecision w st (s stop_point_sl) stop_point stop_point_heading in
  (* record in PlanningStatus *)
  let pull_over_status := get_pull_over w st in
  let start_point_sl :=
    {| s := s stop_point_sl - operation_length (pull_over_config w);
       l := 0 |} in
  let start_point := SLToXY w start_point_sl in
  let new_start :=
    set_y (set_x (mutable_point w (status_start_point pull_over_status))
                 (vx start_point)) (vy start_point) in
  let new_stop :=
    set_y (set_x (mutable_point w (status_stop_point pull_over_status))
                 (x stop_point)) (y stop_point) in
  (0%Z,
   {| pull_over :=
        Some {| in_pull_over := in_pull_over pull_over_status;
                reason := reason pull_over_status;
                status_start_point := Some new_start;
                status_stop_point := Some new_stop;
                status_stop_point_heading := Some stop_point_heading |};
      path_obstacles := path_obstacles st;
      longitudinal_decisions := longitudinal_decisions st |}).

(** ** BuildInLaneStop *)

Definition BuildInLaneStop (w : World) (st : Store)
    (pull_over_stop_point : PointENU) : Z * Store :=
  let stop_point_sl := XYToSL w (xy_of pull_over_stop_point) in
  let point := GetReferencePoint w (s stop_point_sl) in
  let stop_point := set_y (set_x (PointENU_default w) (rx point)) (ry point) in
  let stop_line_s :=
    s stop_point_sl - stop_distance (pull_over_config w) in
  let stop_point_heading :=
    heading (GetReferencePoint w (s stop_point_sl)) in
  let '(_, st) :=
    BuildStopDecision w st stop_line_s stop_point stop_point_heading in
  (* record in PlanningStatus *)
  (0%Z, clear_pull_over st).

(** ** ApplyRule *)

(** [Status::OK()] is the only status returned, so the result is the store
    the call leaves behind. *)
Definition ApplyRule (w : World) (st : Store) (fuel : nat)
  : option (list Event * Outcome Store) :=
  if negb (IsPullOver w st) then Some ([], Done st)
  else
    let stop_point := PointENU_default w in
    match GetPullOverStop w st fuel stop_point with
    | None => None
    | Some (tr, Fault) => Some (tr, Fault)
    | Some (tr, Done (ret, stop_point)) =>
        if (ret =? 0)%Z
        then Some (tr, Done (snd (BuildPullOverStop w st stop_point)))
        else Some (tr, Done (snd (BuildInLaneStop w st stop_point)))
    end.

(** * Vocabulary of the statements *)

(** ** The validator *)

Definition with_obstacles (st : Store) (items : list PathObstacle) : Store :=
  {| pull_over := pull_over st;
     path_obstacles := items;
     longitudinal_decisions := longitudinal_decisions st |}.

(** The same path obstacle with other virtual/static flags. *)
Definition mark (po : PathObstacle) (virt stat : bool) : PathObstacle :=
  {| obstacle := {| ObstacleId := ObstacleId (obstacle po);
                    IsVirtual := virt; IsStatic := stat |};
     PerceptionSLBoundary := PerceptionSLBoundary po |}.

Definition blocks (parking : SLBoundary) (po : PathObstacle) : bool :=
  negb (IsVirtual (obstacle po)) && IsStatic (obstacle po)
  && overlap parking (PerceptionSLBoundary po).

(** ** The scanner *)

(** The sample at [cs] on [lane] passes the three lane checks of the loop
    body (turn type, rightmost driving lane, overlap zones). *)
Definition qualifies (w : World) (lane : LaneInfo) (cs : double) : bool :=
  LaneTurn_eqb (turn lane) NO_TURN
  && rightmost_driving_lane w (right_neighbor_forward_lane_id lane)
  && negb (OnOverlap w cs).

(** [ceil(max_check_distance / 5.0)], as a number of passes. *)
Definition scan_bound (w : World) : nat :=
  Z.to_nat (Qceiling (max_check_distance (pull_over_config w) / kDistanceUnit)).

(** Passes still allowed by the loop condition from [v] on. *)
Definition passes_left (w : World) (v : ScanVars) : Z :=
  Qceiling ((max_check_distance (pull_over_config w) - total_check_length v)
            / kDistanceUnit).

(** ** The build paths and the cycle *)

(** The id of the virtual stop wall, as [BuildStopDecision] forms it. *)
Definition virtual_obstacle_id (w : World) (st : Store) : string :=
  (PULL_OVER_VO_ID_PREFIX w
   ++ PullOverStatus_Reason_Name w (reason (get_pull_over w st)))%string.

(** The stop decision [BuildStopDecision] attaches for a stop point with
    coordinates [(px, py)] and heading [h]. *)
Definition stop_decision_for (w : World) (px py h : double) : StopDecision :=
  {| reason_code := STOP_REASON_PULL_OVER;
     distance_s := - stop_distance (pull_over_config w);
     stop_heading := h;
     sd_stop_point :=
       set_z (set_y (set_x (PointENU_default w) px) py) 0 |}.

(** The planning status of [st'] carried into a new frame whose path
    decision is that of [frame]. *)
Definition next_cycle (frame st' : Store) : Store :=
  {| pull_over := pull_over st';
     path_obstacles := path_obstacles frame;
     longitudinal_decisions := longitudinal_decisions frame |}.

(** * Concrete worlds and stores *)

(** ** A straight road *)

Definition straight_lane : LaneInfo :=
  {| lane_id := "lane_1"; turn := NO_TURN; lane_type := CITY_DRIVING;
     right_neighbor_forward_lane_id := [] |}.

Definition turning_lane : LaneInfo :=
  {| lane_id := "lane_2"; turn := LEFT_TURN; lane_type := CITY_DRIVING;
     right_neighbor_forward_lane_id := [] |}.

Definition road_config : PullOverConfig :=
  {| operation_length := 3; buffer_to_boundary := 0.3;
     max_check_distance := 40; plan_distance := 10; stop_distance := 1 |}.

(** A reference line along the x axis, 200 long, right road width 3.5,
    no overlap zones; the vehicle (2.1 wide, 4.8 long) has its front edge
    at [front].  [lanes] is the lane lookup and [create] the frame's
    stop-obstacle factory. *)
Definition road (lanes : double -> list LaneInfo) (front : double)
    (create : string -> double -> option Obstacle) : World :=
  {| Length := 200;
     XYToSL := fun p => {| s := vx p; l := vy p |};
     SLToXY := fun p => {| vx := s p; vy := l p |};
     GetReferencePoint := fun v => {| rx := v; ry := 0; heading := 0 |};
     GetRoadWidth := fun _ => Some (3.5, 3.5);
     GetLaneFromS := lanes;
     crosswalk_overlaps := [];
     junction_overlaps := [];
     clear_area_overlaps := [];
     speed_bump_overlaps := [];
     GetLaneById := fun _ => None;
     AdcSlBoundary :=
       {| start_s := front - 4.8; end_s := front;
          start_l := -1.05; end_l := 1.05 |};
     vehicle_param := {| width := 2.1; length := 4.8 |};
     pull_over_config := road_config;
     RuleId_Name := "PULL_OVER";
     PARKING_SPOT_LONGITUDINAL_BUFFER := 1;
     PULL_OVER_VO_ID_PREFIX := "PO_";
     PullOverStatus_Reason_Name := fun _ => "DESTINATION"%string;
     Reason_default := 1%Z;
     PointENU_default := {| x := 0; y := 0; z := 0 |};
     CreateStopObstacle := create;
     AddObstacle := fun o =>
       Some {| obstacle := o;
               PerceptionSLBoundary :=
                 {| start_s := 0; end_s := 0; start_l := 0; end_l := 0 |} |} |}.

Definition stop_wall_factory (id : string) (stop_line_s : double)
  : option Obstacle :=
  Some {| ObstacleId := id; IsVirtual := true; IsStatic := true |}.

Definition failing_factory (id : string) (stop_line_s : double)
  : option Obstacle := None.

Definition all_straight (v : double) : list LaneInfo := [straight_lane].

Definition all_turning (v : double) : list LaneInfo := [turning_lane].

Definition no_lanes (v : double) : list LaneInfo := [].

(** ** Worlds *)

(** The example scenario of the specification: front edge at 100,
    operation_length 3, plan_distance 10, straight rightmost lane and no
    overlap zone everywhere, right road width 3.5, vehicle width 2.1,
    buffer_to_boundary 0.3. *)
Definition world_scenario : World := road all_straight 100 stop_wall_factory.

(** The vehicle's front edge at 100 and no lane data ahead of it. *)
Definition world_no_lanes : World := road no_lanes 100 stop_wall_factory.

(** Front edge at 100 and only turn lanes ahead: the scan finds no site. *)
Definition world_turning : World := road all_turning 100 stop_wall_factory.

(** The straight road with a frame that refuses to create the stop wall. *)
Definition world_no_wall : World := road all_straight 100 failing_factory.

(** ** Stores, obstacles and scanner states *)

(** Pull-over requested, nothing cached, nothing on the road. *)
Definition requested : Store :=
  {| pull_over :=
       Some {| in_pull_over := true; reason := 1%Z;
               status_start_point := None; status_stop_point := None;
               status_stop_point_heading := None |};
     path_obstacles := [];
     longitudinal_decisions := [] |}.

(** Pull-over requested, with the stop point found at 110 cached. *)
Definition cached_110 : Store :=
  {| pull_over :=
       Some {| in_pull_over := true; reason := 1%Z;
               status_start_point := Some {| x := 107; y := 0; z := 0 |};
               status_stop_point := Some {| x := 110; y := -2.15; z := 0 |};
               status_stop_point_heading := Some 0 |};
     path_obstacles := [];
     longitudinal_decisions := [] |}.

(** Pull-over requested, with a cached stop point at arc length 50, which
    the vehicle (front edge at 100) has already passed. *)
Definition passed_cache : Store :=
  {| pull_over :=
       Some {| in_pull_over := true; reason := 1%Z;
               status_start_point := Some {| x := 47; y := 0; z := 0 |};
               status_stop_point := Some {| x := 50; y := -2.15; z := 0 |};
               status_stop_point_heading := Some 0 |};
     path_obstacles := [];
     longitudinal_decisions := [] |}.

(** A parked car: the static obstacle of the specification's second
    example, with SL box [108, 118] x [-3, 0]. *)
Definition parked_car : PathObstacle :=
  {| obstacle := {| ObstacleId := "1001"; IsVirtual := false;
                    IsStatic := true |};
     PerceptionSLBoundary :=
       {| start_s := 108; end_s := 118; start_l := -3; end_l := 0 |} |}.

(** The scanner's locals after its first pass in [world_scenario]. *)
Definition after_first_pass : ScanVars :=
  {| check_length := 5; total_check_length := 5; check_s := 105 |}.

(** * The example scenario and the fallback claim, as predicates *)

(** The example scenario, as conditions on the collaborators.  The last
    four fields are what the example leaves unsaid: a lane is found on the
    stretch and it is the rightmost driving lane, the scan horizon is more
    than one step, and the reference line reaches the candidate. *)
Record scenario (w : World) (st : Store) : Prop := mkScenario {
  sc_front : end_s (AdcSlBoundary w) == 100;
  sc_operation_length : operation_length (pull_over_config w) == 3;
  sc_plan_distance : plan_distance (pull_over_config w) == 10;
  sc_no_turn :
    forall v lane, 103 <= v <= 140 ->
      next_lane EmptyString (GetLaneFromS w v) = Some lane ->
      turn lane = NO_TURN;
  sc_no_overlap : forall v, 103 <= v <= 140 -> OnOverlap w v = false;
  sc_no_obstacle : path_obstacles st = [];
  sc_road_width :
    forall v, exists lw rw, GetRoadWidth w v = Some (lw, rw) /\ rw == 3.5;
  sc_vehicle_width : width (vehicle_param w) == 2.1;
  sc_buffer : buffer_to_boundary (pull_over_config w) == 0.3;
  sc_lane :
    forall v, 103 <= v <= 140 ->
      exists lane, next_lane EmptyString (GetLaneFromS w v) = Some lane;
  sc_rightmost :
    forall v lane, 103 <= v <= 140 ->
      next_lane EmptyString (GetLaneFromS w v) = Some lane ->
      rightmost_driving_lane w (right_neighbor_forward_lane_id lane) = true;
  sc_horizon : 5 < max_check_distance (pull_over_config w);
  sc_length : 113 <= Length w }.

(** The scanner, started by [ApplyRule] without a cached point, returns 0
    after a successful parking spot check at arc length [cs], with lateral
    offset [lat]; the point it hands back is that SL point in Cartesian
    coordinates. *)
Definition scanner_selects (w : World) (st : Store) (cs lat : double) : Prop :=
  exists fuel tr p cs',
    FindPullOverStop w st fuel (PointENU_default w)
    = Some ((tr ++ [EvFindPullOverStop cs' 0])%list, Done (0%Z, p))
    /\ cs' == cs
    /\ l (stop_point_sl_at w cs') == lat
    /\ xy_of p = SLToXY w (stop_point_sl_at w cs').


(** * Vocabulary of the further properties *)

(** Two SL boxes are apart on the s axis or on the l axis. *)
Definition separated (parking obstacle_sl : SLBoundary) : Prop :=
  end_s obstacle_sl < start_s parking
  \/ end_s parking < start_s obstacle_sl
  \/ end_l obstacle_sl < start_l parking
  \/ end_l parking < start_l obstacle_sl.

(** [v] lies in the closed interval of [o]. *)
Definition covers (o : PathOverlap) (v : double) : Prop :=
  ov_start_s o <= v /\ v <= ov_end_s o.

(** The same collaborators under another rule configuration. *)
Definition with_config (w : World) (cfg : PullOverConfig) : World :=
  {| Length := Length w;
     XYToSL := XYToSL w;
     SLToXY := SLToXY w;
     GetReferencePoint := GetReferencePoint w;
     GetRoadWidth := GetRoadWidth w;
     GetLaneFromS := GetLaneFromS w;
     crosswalk_overlaps := crosswalk_overlaps w;
     junction_overlaps := junction_overlaps w;
     clear_area_overlaps := clear_area_overlaps w;
     speed_bump_overlaps := speed_bump_overlaps w;
     GetLaneById := GetLaneById w;
     AdcSlBoundary := AdcSlBoundary w;
     vehicle_param := vehicle_param w;
     pull_over_config := cfg;
     RuleId_Name := RuleId_Name w;
     PARKING_SPOT_LONGITUDINAL_BUFFER := PARKING_SPOT_LONGITUDINAL_BUFFER w;
     PULL_OVER_VO_ID_PREFIX := PULL_OVER_VO_ID_PREFIX w;
     PullOverStatus_Reason_Name := PullOverStatus_Reason_Name w;
     Reason_default := Reason_default w;
     PointENU_default := PointENU_default w;
     CreateStopObstacle := CreateStopObstacle w;
     AddObstacle := AddObstacle w |}.

(** The same collaborators with a crosswalk on the reference line. *)
Definition with_crosswalk (w : World) (o : PathOverlap) : World :=
  {| Length := Length w;
     XYToSL := XYToSL w;
     SLToXY := SLToXY w;
     GetReferencePoint := GetReferencePoint w;
     GetRoadWidth := GetRoadWidth w;
     GetLaneFromS := GetLaneFromS w;
     crosswalk_overlaps := o :: crosswalk_overlaps w;
     junction_overlaps := junction_overlaps w;
     clear_area_overlaps := clear_area_overlaps w;
     speed_bump_overlaps := speed_bump_overlaps w;
     GetLaneById := GetLaneById w;
     AdcSlBoundary := AdcSlBoundary w;
     vehicle_param := vehicle_param w;
     pull_over_config := pull_over_config w;
     RuleId_Name := RuleId_Name w;
     PARKING_SPOT_LONGITUDINAL_BUFFER := PARKING_SPOT_LONGITUDINAL_BUFFER w;
     PULL_OVER_VO_ID_PREFIX := PULL_OVER_VO_ID_PREFIX w;
     PullOverStatus_Reason_Name := PullOverStatus_Reason_Name w;
     Reason_default := Reason_default w;
     PointENU_default := PointENU_default w;
     CreateStopObstacle := CreateStopObstacle w;
     AddObstacle := AddObstacle w |}.

(** The same collaborators over another base map. *)
Definition with_base_map (w : World) (lookup : string -> option LaneInfo)
  : World :=
  {| Length := Length w;
     XYToSL := XYToSL w;
     SLToXY := SLToXY w;
     GetReferencePoint := GetReferencePoint w;
     GetRoadWidth := GetRoadWidth w;
     GetLaneFromS := GetLaneFromS w;
     crosswalk_overlaps := crosswalk_overlaps w;
     junction_overlaps := junction_overlaps w;
     clear_area_overlaps := clear_area_overlaps w;
     speed_bump_overlaps := speed_bump_overlaps w;
     GetLaneById := lookup;
     AdcSlBoundary := AdcSlBoundary w;
     vehicle_param := vehicle_param w;
     pull_over_config := pull_over_config w;
     RuleId_Name := RuleId_Name w;
     PARKING_SPOT_LONGITUDINAL_BUFFER := PARKING_SPOT_LONGITUDINAL_BUFFER w;
     PULL_OVER_VO_ID_PREFIX := PULL_OVER_VO_ID_PREFIX w;
     PullOverStatus_Reason_Name := PullOverStatus_Reason_Name w;
     Reason_default := Reason_default w;
     PointENU_default := PointENU_default w;
     CreateStopObstacle := CreateStopObstacle w;
     AddObstacle := AddObstacle w |}.

(** A lane without an id, as a lane lookup may hand back. *)
Definition unnamed_lane : LaneInfo :=
  {| lane_id := ""; turn := NO_TURN; lane_type := CITY_DRIVING;
     right_neighbor_forward_lane_id := [] |}.

(** A bike lane and a driving lane of the base map. *)
Definition bike_lane : LaneInfo :=
  {| lane_id := "bike"; turn := NO_TURN; lane_type := BIKING;
     right_neighbor_forward_lane_id := [] |}.

Definition base_map (id : string) : option LaneInfo :=
  if String.eqb id "bike" then Some bike_lane
  else if String.eqb id "lane_1" then Some straight_lane
  else None.

(** The straight road under a rule configuration with no scan horizon,
    and under one whose [plan_distance] lies a full step beyond the
    horizon. *)
Definition world_no_horizon : World :=
  with_config world_scenario
    {| operation_length := 3; buffer_to_boundary := 0.3;
       max_check_distance := 0; plan_distance := 10; stop_distance := 1 |}.

Definition world_long_plan : World :=
  with_config world_scenario
    {| operation_length := 3; buffer_to_boundary := 0.3;
       max_check_distance := 40; plan_distance := 45; stop_distance := 1 |}.

(** A horizon of 12 with a [plan_distance] of 15. *)
Definition world_overshoot : World :=
  with_config world_scenario
    {| operation_length := 3; buffer_to_boundary := 0.3;
       max_check_distance := 12; plan_distance := 15; stop_distance := 1 |}.

(** A status that holds a stop point but no start point. *)
Definition half_cached : Store :=
  {| pull_over :=
       Some {| in_pull_over := true; reason := 1%Z;
               status_start_point := None;
               status_stop_point := Some {| x := 110; y := -2.15; z := 0 |};
               status_stop_point_heading := None |};
     path_obstacles := [];
     longitudinal_decisions := [] |}.

(** Pull-over requested with a stop point cached at arc length 102, two
    short of [operation_length] ahead of the front edge at 100. *)
Definition close_cache : Store :=
  {| pull_over :=
       Some {| in_pull_over := true; reason := 1%Z;
               status_start_point := Some {| x := 99; y := 0; z := 0 |};
               status_stop_point := Some {| x := 102; y := -2.15; z := 0 |};
               status_stop_point_heading := Some 0 |};
     path_obstacles := [];
     longitudinal_decisions := [] |}.

(** The lane lookup at [c] yields a lane, and the sample passes the turn,
    rightmost-lane and overlap checks. *)
Definition sample_qualifies (w : World) (c : double) : Prop :=
  exists lane,
    next_lane EmptyString (GetLaneFromS w c) = Some lane
    /\ qualifies w lane c = true.

(** A crosswalk from 102 to 107 on the straight road: the sample at 105
    falls on it. *)
Definition world_crosswalk : World :=
  with_crosswalk world_scenario {| ov_start_s := 102; ov_end_s := 107 |}.

(** * Vocabulary of the corrected claims *)

(** The same collaborators with the vehicle elsewhere on the reference
    line: only [AdcSlBoundary] differs. *)
Definition with_adc (w : World) (adc : SLBoundary) : World :=
  {| Length := Length w;
     XYToSL := XYToSL w;
     SLToXY := SLToXY w;
     GetReferencePoint := GetReferencePoint w;
     GetRoadWidth := GetRoadWidth w;
     GetLaneFromS := GetLaneFromS w;
     crosswalk_overlaps := crosswalk_overlaps w;
     junction_overlaps := junction_overlaps w;
     clear_area_overlaps := clear_area_overlaps w;
     speed_bump_overlaps := speed_bump_overlaps w;
     GetLaneById := GetLaneById w;
     AdcSlBoundary := adc;
     vehicle_param := vehicle_param w;
     pull_over_config := pull_over_config w;
     RuleId_Name := RuleId_Name w;
     PARKING_SPOT_LONGITUDINAL_BUFFER := PARKING_SPOT_LONGITUDINAL_BUFFER w;
     PULL_OVER_VO_ID_PREFIX := PULL_OVER_VO_ID_PREFIX w;
     PullOverStatus_Reason_Name := PullOverStatus_Reason_Name w;
     Reason_default := Reason_default w;
     PointENU_default := PointENU_default w;
     CreateStopObstacle := CreateStopObstacle w;
     AddObstacle := AddObstacle w |}.

(** The vehicle of [world_scenario] with its front edge at [front]. *)
Definition adc_at (front : double) : SLBoundary :=
  {| start_s := front - 4.8; end_s := front;
     start_l := -1.05; end_l := 1.05 |}.

(** The example scenario a few cycles later: same reference line, same
    obstacles, the front edge now at 108. *)
Definition world_advanced : World := with_adc world_scenario (adc_at 108).

(** The cached stop point is reused: [GetPullOverStop] returns its x and
    y with no scanner event, whatever the fuel. *)
Definition reuses_cached (w : World) (st : Store) : Prop :=
  exists cp,
    status_stop_point (get_pull_over w st) = Some cp
    /\ forall fuel p,
        exists q,
          GetPullOverStop w st fuel p = Some ([], Done (0%Z, q))
          /\ xy_of q = xy_of cp.

(** The cycle on [st] scans: it ends after at least one pass of the
    scanner loop. *)
Definition rescans (w : World) (st : Store) (fuel : nat) : Prop :=
  exists tr out,
    ApplyRule w st fuel = Some (tr, out) /\ (0 < iterations tr)%nat.

(** [BuildPullOverStop] treats its point as no valid point: it reports a
    failure, or it leaves the pull-over status as it found it. *)
Definition treated_as_no_point (w : World) (st : Store) (p : PointENU)
  : Prop :=
  fst (BuildPullOverStop w st p) <> 0%Z
  \/ pull_over (snd (BuildPullOverStop w st p)) = pull_over st.

(** * Properties *)

(** ** Comparisons *)

Lemma Qltb_lt (a b : double) : Qltb a b = true <-> a < b.
Proof.
  unfold Qltb. rewrite negb_true_iff, <- not_true_iff_false, Qle_bool_iff.
  split; [apply Qnot_le_lt | apply Qlt_not_le].
Qed.

Lemma Qltb_ge (a b : double) : Qltb a b = false <-> b <= a.
Proof.
  unfold Qltb. rewrite negb_false_iff. apply Qle_bool_iff.
Qed.

Lemma Qgeb_ge (a b : double) : Qgeb a b = true <-> b <= a.
Proof. apply Qle_bool_iff. Qed.

Lemma Qgeb_lt (a b : double) : Qgeb a b = false <-> a < b.
Proof.
  unfold Qgeb. rewrite <- not_true_iff_false, Qle_bool_iff.
  split; [apply Qnot_le_lt | apply Qlt_not_le].
Qed.

Lemma out_of_range_iff (w : World) (v : double) :
  out_of_range w v = true <-> v < 0 \/ Length w < v.
Proof.
  unfold out_of_range, Qgtb. rewrite orb_true_iff, !Qltb_lt. tauto.
Qed.

Lemma in_range_iff (w : World) (v : double) :
  out_of_range w v = false <-> 0 <= v /\ v <= Length w.
Proof.
  unfold out_of_range, Qgtb. rewrite orb_false_iff, !Qltb_ge. tauto.
Qed.

(** ** The validator *)

Lemma check_obstacles_cons parking po rest :
  check_obstacles parking (po :: rest)
  = if blocks parking po then false else check_obstacles parking rest.
Proof.
  unfold blocks. simpl.
  destruct (IsVirtual (obstacle po)), (IsStatic (obstacle po)),
    (overlap parking (PerceptionSLBoundary po)); reflexivity.
Qed.

Lemma check_obstacles_forallb parking items :
  check_obstacles parking items
  = forallb (fun po => negb (blocks parking po)) items.
Proof.
  induction items as [|po rest IH]; [reflexivity|].
  rewrite check_obstacles_cons, IH. simpl.
  destruct (blocks parking po); reflexivity.
Qed.

Lemma check_obstacles_app parking before after :
  check_obstacles parking (before ++ after)
  = check_obstacles parking before && check_obstacles parking after.
Proof.
  rewrite !check_obstacles_forallb. apply forallb_app.
Qed.

Lemma check_obstacles_blocked parking items po :
  In po items -> blocks parking po = true ->
  check_obstacles parking items = false.
Proof.
  intros Hin Hb. rewrite check_obstacles_forallb.
  apply not_true_iff_false. intros Hall.
  rewrite forallb_forall in Hall. specialize (Hall po Hin).
  rewrite Hb in Hall. discriminate.
Qed.

Lemma IsValidStop_blocked w st sl po :
  In po (path_obstacles st) ->
  blocks (parking_spot_boundary w sl) po = true ->
  IsValidStop w st sl = false.
Proof.
  intros Hin Hb. unfold IsValidStop.
  destruct (out_of_range w (s sl)); [reflexivity|].
  destruct (Qltb _ _); [reflexivity|].
  eapply check_obstacles_blocked; eauto.
Qed.

Lemma IsValidStop_skip w st sl before po after :
  IsVirtual (obstacle po) = true \/ IsStatic (obstacle po) = false ->
  IsValidStop w (with_obstacles st (before ++ po :: after)) sl
  = IsValidStop w (with_obstacles st (before ++ after)) sl.
Proof.
  intros Hflag. unfold IsValidStop. simpl.
  destruct (out_of_range w (s sl)); [reflexivity|].
  destruct (Qltb _ _); [reflexivity|].
  rewrite !check_obstacles_app, check_obstacles_cons.
  replace (blocks (parking_spot_boundary w sl) po) with false; [reflexivity|].
  unfold blocks. destruct Hflag as [-> | ->]; simpl;
    [reflexivity | now rewrite andb_false_r].
Qed.

(** C4.  A static, non-virtual obstacle whose SL box overlaps the parking
    rectangle makes [IsValidStop] return false, whatever comes after it in
    the obstacle list (the loop returns at the first overlap); the same
    obstacle flagged virtual or non-static is skipped: the validator
    answers as if it were not in the list, hence true when everything
    else passes. *)
Theorem IsValidStop_obstacle_overlap :
  forall (w : World) (st : Store) (sl : SLPoint)
         (before after : list PathObstacle) (po : PathObstacle),
    IsVirtual (obstacle po) = false ->
    IsStatic (obstacle po) = true ->
    overlap (parking_spot_boundary w sl) (PerceptionSLBoundary po) = true ->
    (forall after',
        IsValidStop w (with_obstacles st (before ++ po :: after')) sl = false)
    /\ (forall virt stat,
          virt = true \/ stat = false ->
          IsValidStop w (with_obstacles st (before ++ mark po virt stat :: after)) sl
          = IsValidStop w (with_obstacles st (before ++ after)) sl
          /\ (IsValidStop w (with_obstacles st (before ++ after)) sl = true ->
              IsValidStop w
                (with_obstacles st (before ++ mark po virt stat :: after)) sl
              = true)).
Proof.
  intros w st sl before after po Hv Hs Ho. split.
  - intros after'. apply IsValidStop_blocked with (po := po).
    + simpl. apply in_or_app. right. now left.
    + unfold blocks. now rewrite Hv, Hs, Ho.
  - intros virt stat Hflag.
    assert (Hskip := IsValidStop_skip w st sl before (mark po virt stat) after
                       Hflag).
    split; [exact Hskip | intros Hrest; now rewrite Hskip].
Qed.

Lemma IsValidStop_obstacle_overlap_witness :
  IsValidStop world_scenario (with_obstacles requested [parked_car])
    {| s := 110; l := -2.15 |} = false
  /\ IsValidStop world_scenario
       (with_obstacles requested [mark parked_car true true])
       {| s := 110; l := -2.15 |} = true
  /\ IsValidStop world_scenario
       (with_obstacles requested [mark parked_car false false])
       {| s := 110; l := -2.15 |} = true.
Proof.
  destruct (IsValidStop_obstacle_overlap world_scenario requested
              {| s := 110; l := -2.15 |} [] [] parked_car)
    as [Hblock Hskip]; try reflexivity.
  split; [exact (Hblock [])|]. split.
  - apply (Hskip true true); [now left | reflexivity].
  - apply (Hskip false false); [now right | reflexivity].
Defined.

(** C5.  [IsValidStop] returns false whenever the candidate is closer to
    the vehicle's front edge than [operation_length], whatever the
    obstacles are. *)
Theorem IsValidStop_min_clearance :
  forall (w : World) (st : Store) (stop_point_sl : SLPoint),
    s stop_point_sl - end_s (AdcSlBoundary w)
      < operation_length (pull_over_config w) ->
    IsValidStop w st stop_point_sl = false.
Proof.
  intros w st sl Hclose. unfold IsValidStop.
  destruct (out_of_range w (s sl)); [reflexivity|].
  apply Qltb_lt in Hclose. now rewrite Hclose.
Qed.

Lemma IsValidStop_min_clearance_witness :
  IsValidStop world_scenario (with_obstacles requested [parked_car])
    {| s := 102; l := -2.15 |} = false.
Proof.
  apply (IsValidStop_min_clearance world_scenario
           (with_obstacles requested [parked_car]) {| s := 102; l := -2.15 |}).
  reflexivity.
Defined.

(** ** The scanner: termination and iteration bound *)

Lemma loop_body_total w st v p ev v' :
  loop_body w st v p = (ev, Continue v') ->
  total_check_length v' = total_check_length v + kDistanceUnit.
Proof.
  unfold loop_body.
  destruct (next_lane _ _) as [lane|]; [|discriminate].
  destruct (negb (LaneTurn_eqb _ _)); [intros [= <- <-]; reflexivity|].
  destruct (negb (rightmost_driving_lane _ _)); [intros [= <- <-]; reflexivity|].
  destruct (OnOverlap _ _); [intros [= <- <-]; reflexivity|].
  destruct (Qgeb _ _); [|intros [= <- <-]; reflexivity].
  destruct (FindPullOverStop_at _ _ _ _) as [ret point].
  destruct (negb _); [intros [= <- <-]; reflexivity | discriminate].
Qed.

Lemma loop_body_one_sample w st v p :
  iterations (fst (loop_body w st v p)) = 1%nat.
Proof.
  unfold loop_body.
  destruct (next_lane _ _) as [lane|]; [|reflexivity].
  destruct (negb (LaneTurn_eqb _ _)); [reflexivity|].
  destruct (negb (rightmost_driving_lane _ _)); [reflexivity|].
  destruct (OnOverlap _ _); [reflexivity|].
  destruct (Qgeb _ _); [|reflexivity].
  destruct (FindPullOverStop_at _ _ _ _) as [ret point].
  destruct (negb _); reflexivity.
Qed.

Lemma iterations_app tr1 tr2 :
  iterations (tr1 ++ tr2) = (iterations tr1 + iterations tr2)%nat.
Proof.
  unfold iterations. now rewrite filter_app, length_app.
Qed.

Lemma passes_left_pos w v :
  total_check_length v < max_check_distance (pull_over_config w) ->
  (1 <= passes_left w v)%Z.
Proof.
  intros Hlt. unfold passes_left.
  set (q := (_ - _) / kDistanceUnit).
  assert (Hq : 0 < q).
  { unfold q, kDistanceUnit. apply Qlt_shift_div_l; lra. }
  assert (Hc := Qle_ceiling q).
  assert (H0 : inject_Z 0 < inject_Z (Qceiling q))
    by (apply Qlt_le_trans with q; assumption).
  rewrite <- Zlt_Qlt in H0. lia.
Qed.

Lemma passes_left_step w v v' :
  total_check_length v' = total_check_length v + kDistanceUnit ->
  (passes_left w v' <= passes_left w v - 1)%Z.
Proof.
  intros Ht. unfold passes_left. rewrite Ht.
  generalize (max_check_distance (pull_over_config w)) as m.
  generalize (total_check_length v) as t. intros t m.
  assert (Hc := Qle_ceiling ((m - t) / kDistanceUnit)).
  revert Hc. generalize (Qceiling ((m - t) / kDistanceUnit)) as c.
  intros c Hc.
  rewrite <- (Qceiling_Z (c - 1)).
  apply Qceiling_resp_le.
  unfold Zminus. rewrite inject_Z_plus.
  assert (Heq : (m - (t + kDistanceUnit)) / kDistanceUnit
                == (m - t) / kDistanceUnit - 1)
    by (unfold kDistanceUnit; field).
  rewrite Heq. revert Hc.
  generalize ((m - t) / kDistanceUnit) as q. generalize (inject_Z c) as ic.
  intros ic q Hc. clear - Hc. change (q - 1 <= ic + (-1 # 1)). lra.
Qed.

(** With at least [passes_left] fuel the loop ends, after at most that
    many passes. *)
Lemma scan_loop_terminates w st p :
  forall fuel v,
    (passes_left w v <= Z.of_nat fuel)%Z ->
    exists tr out,
      scan_loop w st fuel v p = Some (tr, out)
      /\ (Z.of_nat (iterations tr) <= Z.max 0 (passes_left w v))%Z.
Proof.
  induction fuel as [|fuel IH]; intros v Hfuel.
  - simpl.
    destruct (Qltb _ _) eqn:Hcond.
    + apply Qltb_lt, (passes_left_pos w) in Hcond. lia.
    + eexists _, _. split; [reflexivity|]. simpl. lia.
  - simpl.
    destruct (Qltb _ _) eqn:Hcond.
    2:{ eexists _, _. split; [reflexivity|]. simpl. lia. }
    apply Qltb_lt, (passes_left_pos w) in Hcond.
    assert (Hone := loop_body_one_sample w st v p).
    destruct (loop_body w st v p) as [ev [v'| p' |]] eqn:Hbody; simpl in Hone.
    + assert (Hstep := passes_left_step w v v' (loop_body_total _ _ _ _ _ _ Hbody)).
      destruct (IH v') as (tr & out & Heq & Hit); [lia|].
      rewrite Heq. simpl. eexists _, _. split; [reflexivity|].
      unfold with_events. simpl. rewrite iterations_app, Hone. lia.
    + eexists _, _. split; [reflexivity|]. rewrite Hone. lia.
    + eexists _, _. split; [reflexivity|]. rewrite Hone. lia.
Qed.

(** More fuel does not change a result. *)
Lemma scan_loop_fuel_mono w st p :
  forall fuel v r,
    scan_loop w st fuel v p = Some r ->
    forall fuel', (fuel <= fuel')%nat -> scan_loop w st fuel' v p = Some r.
Proof.
  induction fuel as [|fuel IH]; intros v r Hrun fuel' Hle.
  - simpl in Hrun. destruct (Qltb _ _) eqn:Hcond; [discriminate|].
    destruct fuel'; simpl; now rewrite Hcond.
  - destruct fuel' as [|fuel']; [lia|].
    simpl in *. destruct (Qltb _ _); [|exact Hrun].
    destruct (loop_body w st v p) as [ev [v'| p' |]]; try exact Hrun.
    destruct (scan_loop w st fuel v' p) as [r'|] eqn:Hrec; [|discriminate].
    rewrite (IH v' r' Hrec fuel'); [exact Hrun | lia].
Qed.

Lemma passes_left_init w :
  passes_left w (scan_init w)
  = Qceiling (max_check_distance (pull_over_config w) / kDistanceUnit).
Proof.
  unfold passes_left, scan_init. simpl. apply Qceiling_comp.
  unfold kDistanceUnit. field.
Qed.

(** The scanner ends within [scan_bound] passes (possibly by a fault). *)
Lemma FindPullOverStop_bounded w st p fuel :
  (scan_bound w <= fuel)%nat ->
  exists tr out,
    FindPullOverStop w st fuel p = Some (tr, out)
    /\ (iterations tr <= scan_bound w)%nat.
Proof.
  intros Hfuel. unfold FindPullOverStop.
  assert (Hinit := passes_left_init w).
  destruct (scan_loop_terminates w st p (scan_bound w) (scan_init w))
    as (tr & out & Heq & Hit).
  { unfold scan_bound in *. lia. }
  exists tr, out. split.
  - eapply scan_loop_fuel_mono; eauto.
  - unfold scan_bound in *. lia.
Qed.

(** A fault needs a sample without a lane. *)
Lemma loop_body_no_fault w st v p :
  next_lane EmptyString (GetLaneFromS w (check_s v + kDistanceUnit)) <> None ->
  snd (loop_body w st v p) <> NullDeref.
Proof.
  intros Hlane. unfold loop_body. cbn [advance check_s].
  destruct (next_lane _ _) as [lane|]; [|now elim Hlane].
  destruct (negb (LaneTurn_eqb _ _)); [discriminate|].
  destruct (negb (rightmost_driving_lane _ _)); [discriminate|].
  destruct (OnOverlap _ _); [discriminate|].
  cbn [extend check_length check_s].
  destruct (Qgeb _ _); [|discriminate].
  destruct (FindPullOverStop_at _ _ _ _) as [ret point].
  destruct (negb _); discriminate.
Qed.

Lemma scan_loop_no_fault w st p :
  (forall v, next_lane EmptyString (GetLaneFromS w v) <> None) ->
  forall fuel v tr out,
    scan_loop w st fuel v p = Some (tr, out) -> out <> Fault.
Proof.
  intros Hlanes. induction fuel as [|fuel IH]; intros v tr out; simpl.
  - destruct (Qltb _ _); [discriminate|]. intros [= _ <-]. discriminate.
  - destruct (Qltb _ _); [|intros [= _ <-]; discriminate].
    assert (Hbody := loop_body_no_fault w st v p (Hlanes _)).
    destruct (loop_body w st v p) as [ev [v'| p' |]]; simpl in Hbody.
    + destruct (scan_loop w st fuel v' p) as [[tr' out']|] eqn:Hrec;
        [|discriminate].
      unfold with_events. simpl. intros [= _ <-]. eapply IH; eauto.
    + intros [= _ <-]. discriminate.
    + now elim Hbody.
Qed.

(** With a lane at every arc length the scanner returns, 0 or -1, within
    [scan_bound] passes. *)
Lemma FindPullOverStop_total w st p fuel :
  (forall v, next_lane EmptyString (GetLaneFromS w v) <> None) ->
  (scan_bound w <= fuel)%nat ->
  exists tr ret q,
    FindPullOverStop w st fuel p = Some (tr, Done (ret, q))
    /\ (iterations tr <= scan_bound w)%nat.
Proof.
  intros Hlanes Hfuel.
  destruct (FindPullOverStop_bounded w st p fuel Hfuel) as (tr & out & Hrun & Hit).
  assert (Hok := scan_loop_no_fault w st p Hlanes _ _ _ _ Hrun).
  destruct out as [|[ret q]]; [now elim Hok|].
  now exists tr, ret, q.
Qed.

(** The scanner returns 0 or -1. *)
Lemma scan_loop_ret w st p :
  forall fuel v tr ret q,
    scan_loop w st fuel v p = Some (tr, Done (ret, q)) ->
    ret = 0%Z \/ ret = (-1)%Z.
Proof.
  induction fuel as [|fuel IH]; intros v tr ret q; simpl.
  - destruct (Qltb _ _); [discriminate|]. intros [= _ <- _]. now right.
  - destruct (Qltb _ _); [|intros [= _ <- _]; now right].
    destruct (loop_body w st v p) as [ev [v'| p' |]].
    + destruct (scan_loop w st fuel v' p) as [[tr' out']|] eqn:Hrec;
        [|discriminate].
      unfold with_events. simpl. intros [= _ ->]. eapply IH; eauto.
    + intros [= _ <- _]. now left.
    + discriminate.
Qed.

(** A fault needs a null lane, and a null lane at the first sample is a
    fault, whatever the fuel. *)
Lemma FindPullOverStop_null_lane w st p fuel :
  0 < max_check_distance (pull_over_config w) ->
  next_lane EmptyString
    (GetLaneFromS w (end_s (AdcSlBoundary w) + kDistanceUnit)) = None ->
  FindPullOverStop w st (S fuel) p
  = Some ([EvGetLaneFromS (end_s (AdcSlBoundary w) + kDistanceUnit)], Fault).
Proof.
  intros Hmax Hnull. unfold FindPullOverStop. simpl.
  apply Qltb_lt in Hmax. rewrite Hmax.
  unfold loop_body. simpl. now rewrite Hnull.
Qed.

(** C1.  With [max_check_distance = 40 > 0] and a lane lookup that returns
    no lane, the scanner's first pass dereferences the null [lane]: the
    run ends in a fault, and so does [ApplyRule]. *)
Theorem FindPullOverStop_no_lanes_faults :
  forall (fuel : nat) (p : PointENU),
    FindPullOverStop world_no_lanes requested (S fuel) p
    = Some ([EvGetLaneFromS 105], Fault)
    /\ ApplyRule world_no_lanes requested (S fuel)
       = Some ([EvGetLaneFromS 105], Fault).
Proof.
  intros fuel p. split; reflexivity.
Qed.

(** ** The scanner: one pass of the loop *)

Lemma qualifies_false w lane cs :
  qualifies w lane cs = false <->
  turn lane <> NO_TURN
  \/ rightmost_driving_lane w (right_neighbor_forward_lane_id lane) = false
  \/ OnOverlap w cs = true.
Proof.
  unfold qualifies. rewrite !andb_false_iff, negb_false_iff.
  assert (Hturn : LaneTurn_eqb (turn lane) NO_TURN = false
                  <-> turn lane <> NO_TURN).
  { destruct (turn lane); simpl; split; congruence. }
  rewrite Hturn. tauto.
Qed.

Lemma loop_body_disqualified w st v p lane :
  next_lane EmptyString (GetLaneFromS w (check_s v + kDistanceUnit))
  = Some lane ->
  qualifies w lane (check_s v + kDistanceUnit) = false ->
  loop_body w st v p
  = ([EvGetLaneFromS (check_s v + kDistanceUnit)],
     Continue (reset (advance v))).
Proof.
  intros Hlane Hq. unfold loop_body, qualifies in *.
  cbn [advance check_s] in *. rewrite Hlane.
  destruct (LaneTurn_eqb (turn lane) NO_TURN); [|reflexivity].
  destruct (rightmost_driving_lane w _); [|reflexivity].
  destruct (OnOverlap w _); [reflexivity | discriminate].
Qed.

Lemma loop_body_growing w st v p lane :
  next_lane EmptyString (GetLaneFromS w (check_s v + kDistanceUnit))
  = Some lane ->
  qualifies w lane (check_s v + kDistanceUnit) = true ->
  check_length v + kDistanceUnit < plan_distance (pull_over_config w) ->
  loop_body w st v p
  = ([EvGetLaneFromS (check_s v + kDistanceUnit)],
     Continue (extend (advance v))).
Proof.
  intros Hlane Hq Hrun. unfold loop_body, qualifies in *.
  rewrite !andb_true_iff, negb_true_iff in Hq.
  destruct Hq as [[Hturn Hright] Hover].
  cbn [advance extend check_s check_length] in *.
  rewrite Hlane, Hturn, Hright, Hover. cbn [negb].
  apply Qgeb_lt in Hrun. now rewrite Hrun.
Qed.

Lemma loop_body_checked w st v p lane :
  next_lane EmptyString (GetLaneFromS w (check_s v + kDistanceUnit))
  = Some lane ->
  qualifies w lane (check_s v + kDistanceUnit) = true ->
  plan_distance (pull_over_config w) <= check_length v + kDistanceUnit ->
  loop_body w st v p
  = let cs := check_s v + kDistanceUnit in
    let '(ret, point) := FindPullOverStop_at w st cs (PointENU_default w) in
    ([EvGetLaneFromS cs; EvFindPullOverStop cs ret],
     if (ret =? 0)%Z then Return0 (set_y (set_x p (x point)) (y point))
     else Continue (reset (extend (advance v)))).
Proof.
  intros Hlane Hq Hrun. unfold loop_body, qualifies in *.
  rewrite !andb_true_iff, negb_true_iff in Hq.
  destruct Hq as [[Hturn Hright] Hover].
  cbn [advance extend check_s check_length] in *.
  rewrite Hlane, Hturn, Hright, Hover. cbn [negb].
  apply Qgeb_ge in Hrun. rewrite Hrun.
  destruct (FindPullOverStop_at _ _ _ _) as [ret point].
  destruct (ret =? 0)%Z; reflexivity.
Qed.

(** C6.  One pass over a sample [cs = check_s + 5] that has a lane:
    - a turn lane, a lane with a city-driving right neighbour or an
      overlap zone sets [check_length] to 0, without a parking spot check;
    - a qualifying sample whose run [check_length + 5] is still below
      [plan_distance] only lengthens the run, without a parking spot check;
    - a qualifying sample whose run reaches [plan_distance] (equality
      included) checks the parking spot at [cs]; a failed check sets
      [check_length] to 0 and a successful one returns. *)
Theorem loop_body_run_reset :
  forall (w : World) (st : Store) (v : ScanVars) (p : PointENU)
         (lane : LaneInfo),
    let cs := check_s v + kDistanceUnit in
    let run := check_length v + kDistanceUnit in
    let ret := fst (FindPullOverStop_at w st cs (PointENU_default w)) in
    next_lane EmptyString (GetLaneFromS w cs) = Some lane ->
    ((turn lane <> NO_TURN
      \/ rightmost_driving_lane w (right_neighbor_forward_lane_id lane) = false
      \/ OnOverlap w cs = true) ->
     exists v', loop_body w st v p = ([EvGetLaneFromS cs], Continue v')
                /\ check_length v' = 0)
    /\ (qualifies w lane cs = true -> run < plan_distance (pull_over_config w) ->
        exists v', loop_body w st v p = ([EvGetLaneFromS cs], Continue v')
                   /\ check_length v' = run)
    /\ (qualifies w lane cs = true ->
        plan_distance (pull_over_config w) <= run ->
        fst (loop_body w st v p)
        = [EvGetLaneFromS cs; EvFindPullOverStop cs ret]
        /\ (ret <> 0%Z ->
            exists v', snd (loop_body w st v p) = Continue v'
                       /\ check_length v' = 0)
        /\ (ret = 0%Z ->
            exists q, snd (loop_body w st v p) = Return0 q))
    /\ (qualifies w lane cs = true ->
        run == plan_distance (pull_over_config w) ->
        In (EvFindPullOverStop cs ret) (fst (loop_body w st v p))).
Proof.
  intros w st v p lane cs run ret Hlane.
  assert (Hfull : qualifies w lane cs = true ->
                  plan_distance (pull_over_config w) <= run ->
                  fst (loop_body w st v p)
                  = [EvGetLaneFromS cs; EvFindPullOverStop cs ret]
                  /\ (ret <> 0%Z ->
                      exists v', snd (loop_body w st v p) = Continue v'
                                 /\ check_length v' = 0)
                  /\ (ret = 0%Z ->
                      exists q, snd (loop_body w st v p) = Return0 q)).
  { intros Hq Hrun.
    rewrite (loop_body_checked w st v p lane Hlane Hq Hrun).
    subst ret. fold cs. cbv zeta.
    destruct (FindPullOverStop_at w st cs (PointENU_default w)) as [r point].
    cbn [fst snd]. split; [reflexivity|].
    destruct (Z.eqb_spec r 0) as [->|Hne]; split.
    - intros H. now elim H.
    - intros _. eexists. reflexivity.
    - intros _. eexists. split; reflexivity.
    - intros H. now elim Hne. }
  split; [|split; [|split]].
  - intros Hdis. apply qualifies_false in Hdis.
    rewrite (loop_body_disqualified w st v p lane Hlane Hdis).
    eexists. split; reflexivity.
  - intros Hq Hrun.
    rewrite (loop_body_growing w st v p lane Hlane Hq Hrun).
    eexists. split; reflexivity.
  - exact Hfull.
  - intros Hq Heq.
    destruct (Hfull Hq) as [Hev _]; [rewrite Heq; apply Qle_refl|].
    rewrite Hev. right. now left.
Qed.

Lemma loop_body_run_reset_witness :
  (exists v',
      loop_body world_scenario requested (scan_init world_scenario)
        (PointENU_default world_scenario)
      = ([EvGetLaneFromS 105], Continue v')
      /\ check_length v' = 5)
  /\ In (EvFindPullOverStop 110 0)
       (fst (loop_body world_scenario requested after_first_pass
               (PointENU_default world_scenario)))
  /\ exists v',
      loop_body world_turning requested after_first_pass
        (PointENU_default world_turning)
      = ([EvGetLaneFromS 110], Continue v')
      /\ check_length v' = 0.
Proof.
  split; [|split].
  - destruct (loop_body_run_reset world_scenario requested
                (scan_init world_scenario) (PointENU_default world_scenario)
                straight_lane) as (_ & Hgrow & _); [reflexivity|].
    apply Hgrow; reflexivity.
  - destruct (loop_body_run_reset world_scenario requested after_first_pass
                (PointENU_default world_scenario) straight_lane)
      as (_ & _ & _ & Hexact); [reflexivity|].
    apply Hexact; reflexivity.
  - destruct (loop_body_run_reset world_turning requested after_first_pass
                (PointENU_default world_turning) turning_lane)
      as (Hreset & _); [reflexivity|].
    apply Hreset. left. discriminate.
Defined.

(** ** GetPullOverStop: the three ways through *)

Lemma normalise_scan w st fuel p :
  match FindPullOverStop w st fuel p with
  | None => None
  | Some (tr, Fault) => Some (tr, Fault)
  | Some (tr, Done (ret, q)) =>
      if (ret =? 0)%Z then Some (tr, Done (0%Z, q))
      else Some (tr, Done ((-1)%Z, q))
  end = FindPullOverStop w st fuel p.
Proof.
  destruct (FindPullOverStop w st fuel p) as [[tr [|[ret q]]]|] eqn:Hscan;
    try reflexivity.
  destruct (scan_loop_ret _ _ _ _ _ _ _ _ Hscan) as [-> | ->]; reflexivity.
Qed.

Lemma GetPullOverStop_no_cache w st fuel p :
  status_start_point (get_pull_over w st) = None
  \/ status_stop_point (get_pull_over w st) = None ->
  GetPullOverStop w st fuel p = FindPullOverStop w st fuel p.
Proof.
  intros Hnone. unfold GetPullOverStop.
  destruct (status_start_point (get_pull_over w st)) as [sp|],
           (status_stop_point (get_pull_over w st)) as [cp|];
    try (destruct Hnone; discriminate); apply normalise_scan.
Qed.

Lemma GetPullOverStop_invalid_cache w st fuel p sp cp :
  status_start_point (get_pull_over w st) = Some sp ->
  status_stop_point (get_pull_over w st) = Some cp ->
  IsValidStop w st (XYToSL w (xy_of cp)) = false ->
  GetPullOverStop w st fuel p
  = FindPullOverStop w st fuel (set_y (set_x p (x cp)) (y cp)).
Proof.
  intros Hsp Hcp Hinv. unfold GetPullOverStop. rewrite Hsp, Hcp.
  unfold IsValidStop_xy.
  change (xy_of (set_y (set_x p (x cp)) (y cp))) with (xy_of cp).
  rewrite Hinv. apply normalise_scan.
Qed.

Lemma GetPullOverStop_valid_cache w st fuel p sp cp :
  status_start_point (get_pull_over w st) = Some sp ->
  status_stop_point (get_pull_over w st) = Some cp ->
  IsValidStop w st (XYToSL w (xy_of cp)) = true ->
  GetPullOverStop w st fuel p
  = Some ([], Done (0%Z, set_y (set_x p (x cp)) (y cp))).
Proof.
  intros Hsp Hcp Hval. unfold GetPullOverStop. rewrite Hsp, Hcp.
  unfold IsValidStop_xy.
  change (xy_of (set_y (set_x p (x cp)) (y cp))) with (xy_of cp).
  rewrite Hval. reflexivity.
Qed.

(** ** Arc lengths outside the reference line *)

Lemma BuildStopDecision_out_of_range w st v p h :
  out_of_range w v = true -> BuildStopDecision w st v p h = ((-1)%Z, st).
Proof.
  intros Hout. unfold BuildStopDecision. now rewrite Hout.
Qed.

(** ** The example scenario *)

Lemma FindPullOverStop_deterministic w st p fuel1 fuel2 r1 r2 :
  FindPullOverStop w st fuel1 p = Some r1 ->
  FindPullOverStop w st fuel2 p = Some r2 ->
  r1 = r2.
Proof.
  unfold FindPullOverStop. intros H1 H2.
  assert (H1' := scan_loop_fuel_mono _ _ _ _ _ _ H1 (Nat.max fuel1 fuel2)
                   (Nat.le_max_l _ _)).
  assert (H2' := scan_loop_fuel_mono _ _ _ _ _ _ H2 (Nat.max fuel1 fuel2)
                   (Nat.le_max_r _ _)).
  congruence.
Qed.

Lemma std_min_eq (a b c : double) : a == c -> b == c -> std_min a b == c.
Proof.
  intros Ha Hb. unfold std_min. now destruct (Qltb b a).
Qed.

Lemma scenario_world_scenario : scenario world_scenario requested.
Proof.
  constructor; try reflexivity; try (intros; reflexivity).
  - intros v lane _ [= <-]. reflexivity.
  - intros v. exists 3.5, 3.5. split; reflexivity.
  - intros v _. exists straight_lane. reflexivity.
  - intros v lane _ [= <-]. reflexivity.
  - discriminate.
Qed.

(** C2, as stated, fails: in the scenario the scanner's first parking
    spot check is at 110 = 100 + 5 + 5 and it succeeds, so 113 is never
    sampled. *)
Lemma scenario_does_not_select_113 :
  scenario world_scenario requested
  /\ scanner_selects world_scenario requested 110 (-2.15)
  /\ ~ scanner_selects world_scenario requested 113 (-2.15).
Proof.
  split; [exact scenario_world_scenario|]. split.
  - exists 2%nat, [EvGetLaneFromS 105; EvGetLaneFromS 110],
      {| x := 110; y := - (3.5 - 2.1 / 2 - 0.3); z := 0 |}, 110.
    repeat split; reflexivity.
  - intros (fuel & tr & p & cs' & Hrun & Hcs & _).
    assert (H2 : FindPullOverStop world_scenario requested 2
                   (PointENU_default world_scenario)
                 = Some (([EvGetLaneFromS 105; EvGetLaneFromS 110]
                          ++ [EvFindPullOverStop 110 0])%list,
                         Done (0%Z, {| x := 110;
                                       y := - (3.5 - 2.1 / 2 - 0.3);
                                       z := 0 |})))
      by reflexivity.
    assert (Heq := FindPullOverStop_deterministic _ _ _ _ _ _ _ Hrun H2).
    injection Heq as Htr _.
    change [EvGetLaneFromS 105; EvGetLaneFromS 110; EvFindPullOverStop 110 0]
      with ([EvGetLaneFromS 105; EvGetLaneFromS 110]
            ++ [EvFindPullOverStop 110 0])%list in Htr.
    apply app_inj_tail in Htr as [_ [= ->]].
    revert Hcs. unfold Qeq. simpl. lia.
Qed.

Section Scenario.

Variables (w : World) (st : Store).
Hypothesis Hsc : scenario w st.

Lemma scenario_lateral_offset cs : l (stop_point_sl_at w cs) == -2.15.
Proof.
  unfold stop_point_sl_at, road_right_width_at. cbn [l].
  destruct (sc_road_width w st Hsc (cs + PARKING_SPOT_LONGITUDINAL_BUFFER w))
    as (lw1 & rw1 & -> & Hr1).
  destruct (sc_road_width w st Hsc (cs - length (vehicle_param w) / 2))
    as (lw2 & rw2 & -> & Hr2).
  destruct (sc_road_width w st Hsc
              (cs - length (vehicle_param w)
               - PARKING_SPOT_LONGITUDINAL_BUFFER w))
    as (lw3 & rw3 & -> & Hr3).
  assert (Hm : std_min (std_min rw1 rw2) rw3 == 3.5)
    by (repeat apply std_min_eq; assumption).
  rewrite Hm, (sc_vehicle_width w st Hsc), (sc_buffer w st Hsc).
  reflexivity.
Qed.

Lemma scenario_valid sl : 103 <= s sl <= 113 -> IsValidStop w st sl = true.
Proof.
  intros [Hlo Hhi]. unfold IsValidStop.
  assert (Hlen := sc_length w st Hsc).
  assert (Hfront := sc_front w st Hsc).
  assert (Hop := sc_operation_length w st Hsc).
  replace (out_of_range w (s sl)) with false
    by (symmetry; apply in_range_iff; split; lra).
  replace (Qltb _ _) with false
    by (symmetry; apply Qltb_ge; rewrite Hfront, Hop; lra).
  rewrite (sc_no_obstacle w st Hsc). reflexivity.
Qed.

Lemma scenario_qualifies v lane :
  103 <= v <= 140 ->
  next_lane EmptyString (GetLaneFromS w v) = Some lane ->
  qualifies w lane v = true.
Proof.
  intros Hv Hlane. unfold qualifies.
  rewrite (sc_no_turn w st Hsc v lane Hv Hlane),
    (sc_rightmost w st Hsc v lane Hv Hlane), (sc_no_overlap w st Hsc v Hv).
  reflexivity.
Qed.

Lemma scenario_run :
  let front := end_s (AdcSlBoundary w) in
  let cs := front + kDistanceUnit + kDistanceUnit in
  let xy := SLToXY w (stop_point_sl_at w cs) in
  FindPullOverStop w st 2 (PointENU_default w)
  = Some ([EvGetLaneFromS (front + kDistanceUnit); EvGetLaneFromS cs;
           EvFindPullOverStop cs 0],
          Done (0%Z, set_y (set_x (PointENU_default w) (vx xy)) (vy xy))).
Proof.
  intros front cs xy.
  assert (Hfront := sc_front w st Hsc).
  assert (Hplan := sc_plan_distance w st Hsc).
  assert (Hmax := sc_horizon w st Hsc).
  assert (Hlen := sc_length w st Hsc).
  fold front in Hfront.
  assert (Hin1 : 103 <= front + kDistanceUnit <= 140)
    by (unfold kDistanceUnit; rewrite Hfront; split; lra).
  assert (Hin2 : 103 <= cs <= 140)
    by (unfold cs, kDistanceUnit; rewrite Hfront; split; lra).
  destruct (sc_lane w st Hsc _ Hin1) as [lane1 Hlane1].
  destruct (sc_lane w st Hsc _ Hin2) as [lane2 Hlane2].
  unfold FindPullOverStop. cbn [scan_loop].
  replace (Qltb (total_check_length (scan_init w)) _) with true
    by (symmetry; apply Qltb_lt; simpl; lra).
  rewrite (loop_body_growing w st (scan_init w) _ lane1 Hlane1).
  2:{ apply scenario_qualifies; assumption. }
  2:{ simpl. unfold kDistanceUnit. rewrite Hplan. lra. }
  replace (Qltb (total_check_length (extend (advance (scan_init w)))) _)
    with true
    by (symmetry; apply Qltb_lt; simpl; unfold kDistanceUnit; lra).
  rewrite (loop_body_checked w st (extend (advance (scan_init w))) _ lane2
             Hlane2).
  2:{ apply scenario_qualifies; assumption. }
  2:{ simpl. unfold kDistanceUnit. rewrite Hplan. lra. }
  cbv zeta. change (check_s (extend (advance (scan_init w))) + kDistanceUnit)
    with cs.
  unfold FindPullOverStop_at.
  replace (out_of_range w cs) with false.
  2:{ symmetry. apply in_range_iff. unfold cs, kDistanceUnit.
      rewrite Hfront. split; lra. }
  rewrite scenario_valid.
  2:{ cbn [stop_point_sl_at s]. unfold cs, kDistanceUnit. rewrite Hfront.
      split; lra. }
  reflexivity.
Qed.

End Scenario.

(** C2, amended.  In the scenario (with a lane found on the stretch, that
    lane the rightmost driving lane, a scan horizon above 5 and a
    reference line of at least 113) the scanner samples 105 and 110,
    checks the parking spot at 110, where the run 5 + 5 reaches
    [plan_distance], and returns it with lateral offset -2.15; the
    validator accepts both (110, -2.15) and (113, -2.15). *)
Theorem scenario_selects_110 :
  forall (w : World) (st : Store),
    scenario w st ->
    scanner_selects w st 110 (-2.15)
    /\ IsValidStop w st {| s := 110; l := -2.15 |} = true
    /\ IsValidStop w st {| s := 113; l := -2.15 |} = true.
Proof.
  intros w st Hsc. split; [|split].
  - unfold scanner_selects.
    exists 2%nat. eexists [_; _], _, _. rewrite (scenario_run w st Hsc).
    split; [reflexivity|]. split; [|split].
    + rewrite (sc_front w st Hsc). reflexivity.
    + apply (scenario_lateral_offset w st Hsc).
    + destruct (SLToXY w _). reflexivity.
  - apply (scenario_valid w st Hsc). simpl. split; lra.
  - apply (scenario_valid w st Hsc). simpl. split; lra.
Qed.

Lemma scenario_selects_110_witness :
  scanner_selects world_scenario requested 110 (-2.15)
  /\ IsValidStop world_scenario requested {| s := 110; l := -2.15 |} = true
  /\ IsValidStop world_scenario requested {| s := 113; l := -2.15 |} = true.
Proof.
  apply (scenario_selects_110 world_scenario requested).
  constructor; try reflexivity; try (intros; reflexivity).
  - intros v lane _ [= <-]. reflexivity.
  - intros v. exists 3.5, 3.5. split; reflexivity.
  - intros v _. exists straight_lane. reflexivity.
  - intros v lane _ [= <-]. reflexivity.
  - discriminate.
Defined.

(** ** The build paths *)

Lemma scan_loop_fail_keeps w st p :
  forall fuel v tr ret q,
    scan_loop w st fuel v p = Some (tr, Done (ret, q)) ->
    ret <> 0%Z -> q = p.
Proof.
  induction fuel as [|fuel IH]; intros v tr ret q; simpl.
  - destruct (Qltb _ _); [discriminate|]. now intros [= _ _ <-].
  - destruct (Qltb _ _); [|now intros [= _ _ <-]].
    destruct (loop_body w st v p) as [ev [v'| p' |]].
    + destruct (scan_loop w st fuel v' p) as [[tr' out']|] eqn:Hrec;
        [|discriminate].
      unfold with_events. simpl. intros [= _ ->]. eapply IH; eauto.
    + intros [= _ <- _] Hne. now elim Hne.
    + discriminate.
Qed.

Lemma ApplyRule_active w st fuel :
  IsPullOver w st = true ->
  ApplyRule w st fuel
  = match GetPullOverStop w st fuel (PointENU_default w) with
    | None => None
    | Some (tr, Fault) => Some (tr, Fault)
    | Some (tr, Done (ret, stop_point)) =>
        if (ret =? 0)%Z
        then Some (tr, Done (snd (BuildPullOverStop w st stop_point)))
        else Some (tr, Done (snd (BuildInLaneStop w st stop_point)))
    end.
Proof.
  intros Hon. unfold ApplyRule. now rewrite Hon.
Qed.


Lemma BuildStopDecision_failed w st line p h :
  fst (BuildStopDecision w st line p h) <> 0%Z ->
  BuildStopDecision w st line p h = ((-1)%Z, st).
Proof.
  unfold BuildStopDecision.
  destruct (out_of_range w line); [reflexivity|].
  destruct (CreateStopObstacle w _ line) as [o|]; [|reflexivity].
  destruct (AddObstacle w o) as [wall|]; [|reflexivity].
  simpl. intros H. now elim H.
Qed.

Lemma BuildStopDecision_pull_over w st line p h :
  pull_over (snd (BuildStopDecision w st line p h)) = pull_over st.
Proof.
  unfold BuildStopDecision.
  destruct (out_of_range w line); [reflexivity|].
  destruct (CreateStopObstacle w _ line) as [o|]; [|reflexivity].
  destruct (AddObstacle w o) as [wall|]; reflexivity.
Qed.

Lemma BuildInLaneStop_store w st p :
  snd (BuildInLaneStop w st p)
  = clear_pull_over
      (snd (BuildStopDecision w st
              (s (XYToSL w (xy_of p)) - stop_distance (pull_over_config w))
              (set_y (set_x (PointENU_default w)
                        (rx (GetReferencePoint w (s (XYToSL w (xy_of p))))))
                     (ry (GetReferencePoint w (s (XYToSL w (xy_of p))))))
              (heading (GetReferencePoint w (s (XYToSL w (xy_of p))))))).
Proof.
  unfold BuildInLaneStop. now destruct (BuildStopDecision _ _ _ _ _).
Qed.

(** ** The fallback in-lane stop *)

(** A failed [GetPullOverStop] hands back the point it tried to reuse. *)
Lemma GetPullOverStop_failed_point w st fuel p tr ret q :
  GetPullOverStop w st fuel p = Some (tr, Done (ret, q)) ->
  ret <> 0%Z ->
  FindPullOverStop w st fuel q = Some (tr, Done ((-1)%Z, q))
  /\ match status_start_point (get_pull_over w st),
           status_stop_point (get_pull_over w st) with
     | Some _, Some cp => q = set_y (set_x p (x cp)) (y cp)
     | _, _ => q = p
     end.
Proof.
  intros Hget Hne.
  assert (Hscan : forall p1,
             GetPullOverStop w st fuel p = FindPullOverStop w st fuel p1 ->
             FindPullOverStop w st fuel q = Some (tr, Done ((-1)%Z, q))
             /\ q = p1).
  { intros p1 Heq. rewrite Heq in Hget.
    assert (Hq := scan_loop_fail_keeps _ _ _ _ _ _ _ _ Hget Hne). subst q.
    destruct (scan_loop_ret _ _ _ _ _ _ _ _ Hget) as [-> | ->];
      [now elim Hne | now split]. }
  destruct (status_start_point (get_pull_over w st)) as [sp|] eqn:Hsp;
    [destruct (status_stop_point (get_pull_over w st)) as [cp|] eqn:Hcp|].
  - destruct (IsValidStop w st (XYToSL w (xy_of cp))) eqn:Hval.
    + rewrite (GetPullOverStop_valid_cache w st fuel p sp cp Hsp Hcp Hval)
        in Hget.
      injection Hget as _ <- _. now elim Hne.
    + apply Hscan. now apply GetPullOverStop_invalid_cache with (sp := sp).
  - apply Hscan. apply GetPullOverStop_no_cache. now right.
  - apply Hscan. apply GetPullOverStop_no_cache. now left.
Qed.




(** ** Cache reuse *)

Lemma BuildPullOverStop_status w st p :
  pull_over (snd (BuildPullOverStop w st p))
  = let sl := XYToSL w (xy_of p) in
    let start := SLToXY w {| s := s sl - operation_length (pull_over_config w);
                             l := 0 |} in
    let po := get_pull_over w st in
    Some {| in_pull_over := in_pull_over po;
            reason := reason po;
            status_start_point :=
              Some (set_y (set_x (mutable_point w (status_start_point po))
                             (vx start)) (vy start));
            status_stop_point :=
              Some (set_y (set_x (mutable_point w (status_stop_point po))
                             (x p)) (y p));
            status_stop_point_heading :=
              Some (heading (GetReferencePoint w (s sl))) |}.
Proof.
  unfold BuildPullOverStop.
  assert (Hpo := BuildStopDecision_pull_over w st (s (XYToSL w (xy_of p))) p
                   (heading (GetReferencePoint w (s (XYToSL w (xy_of p)))))).
  destruct (BuildStopDecision _ _ _ _ _) as [r st1]. simpl in *.
  unfold get_pull_over. now rewrite Hpo.
Qed.

Lemma BuildPullOverStop_decisions w st p :
  let sl := XYToSL w (xy_of p) in
  let h := heading (GetReferencePoint w (s sl)) in
  longitudinal_decisions (snd (BuildPullOverStop w st p))
  = longitudinal_decisions (snd (BuildStopDecision w st (s sl) p h))
  /\ path_obstacles (snd (BuildPullOverStop w st p))
     = path_obstacles (snd (BuildStopDecision w st (s sl) p h)).
Proof.
  unfold BuildPullOverStop.
  destruct (BuildStopDecision _ _ _ _ _) as [r st1]. now split.
Qed.

Lemma BuildStopDecision_decisions w st line p h :
  longitudinal_decisions (snd (BuildStopDecision w st line p h))
  = longitudinal_decisions st
  \/ exists id,
      longitudinal_decisions (snd (BuildStopDecision w st line p h))
      = (longitudinal_decisions st
         ++ [(RuleId_Name w, id, stop_decision_for w (x p) (y p) h)])%list.
Proof.
  unfold BuildStopDecision.
  destruct (out_of_range w line); [now left|].
  destruct (CreateStopObstacle w _ line) as [o|]; [|now left].
  destruct (AddObstacle w o) as [wall|]; [|now left].
  right. exists (Id wall). reflexivity.
Qed.

(** What the reuse branch of [GetPullOverStop] gives, once the cached
    stop point has passed [IsValidStop] in the cycle at hand. *)
Lemma valid_cache_is_reused :
  forall (w : World) (st : Store) (fuel : nat) (sp cp : PointENU),
    IsPullOver w st = true ->
    status_start_point (get_pull_over w st) = Some sp ->
    status_stop_point (get_pull_over w st) = Some cp ->
    IsValidStop w st (XYToSL w (xy_of cp)) = true ->
    let p := set_y (set_x (PointENU_default w) (x cp)) (y cp) in
    GetPullOverStop w st fuel (PointENU_default w) = Some ([], Done (0%Z, p))
    /\ exists st',
        ApplyRule w st fuel = Some ([], Done st')
        /\ st' = snd (BuildPullOverStop w st p)
        /\ (forall rule id d,
              In (rule, id, d) (longitudinal_decisions st') ->
              In (rule, id, d) (longitudinal_decisions st)
              \/ (x (sd_stop_point d) = x cp /\ y (sd_stop_point d) = y cp))
        /\ IsPullOver w st' = true
        /\ status_stop_point (get_pull_over w st') = Some cp
        /\ (exists sp', status_start_point (get_pull_over w st') = Some sp')
        /\ (forall frame,
              path_obstacles frame = path_obstacles st ->
              IsValidStop w (next_cycle frame st') (XYToSL w (xy_of cp)) = true).
Proof.
  intros w st fuel sp cp Hon Hsp Hcp Hval p.
  assert (Hget := GetPullOverStop_valid_cache w st fuel (PointENU_default w)
                    sp cp Hsp Hcp Hval).
  split; [exact Hget|].
  eexists. split; [|split; [reflexivity|]].
  { rewrite (ApplyRule_active w st fuel Hon), Hget. reflexivity. }
  assert (Hstatus := BuildPullOverStop_status w st p).
  cbv zeta in Hstatus. rewrite Hsp, Hcp in Hstatus. cbn [mutable_point] in Hstatus.
  split; [|split; [|split; [|split]]].
  - intros rule id d Hin.
    destruct (BuildPullOverStop_decisions w st p) as [Hdec _].
    cbv zeta in Hdec. rewrite Hdec in Hin.
    destruct (BuildStopDecision_decisions w st (s (XYToSL w (xy_of p))) p
                (heading (GetReferencePoint w (s (XYToSL w (xy_of p))))))
      as [Hsame | [id' Hnew]].
    + left. now rewrite Hsame in Hin.
    + rewrite Hnew in Hin. apply in_app_or in Hin as [Hold | [Heq | []]].
      * now left.
      * right. injection Heq as _ _ <-. split; reflexivity.
  - unfold IsPullOver, has_pull_over, get_pull_over in *. rewrite Hstatus.
    simpl. destruct (pull_over st); [|discriminate]. exact Hon.
  - unfold get_pull_over. rewrite Hstatus. simpl. now destruct cp.
  - unfold get_pull_over. rewrite Hstatus. simpl. eexists. reflexivity.
  - intros frame Hframe. unfold IsValidStop in *. simpl. now rewrite Hframe.
Qed.

Lemma IsValidStop_with_adc w adc st1 st2 sl :
  path_obstacles st2 = path_obstacles st1 ->
  IsValidStop w st1 sl = true ->
  operation_length (pull_over_config w) <= s sl - end_s adc ->
  IsValidStop (with_adc w adc) st2 sl = true.
Proof.
  intros Hobs Hval Hop. unfold IsValidStop in *.
  change (out_of_range (with_adc w adc) (s sl)) with (out_of_range w (s sl)).
  destruct (out_of_range w (s sl)); [discriminate|].
  destruct (Qltb (s sl - end_s (AdcSlBoundary w)) _); [discriminate|].
  cbn [with_adc AdcSlBoundary pull_over_config].
  apply Qltb_ge in Hop. rewrite Hop, Hobs. exact Hval.
Qed.

(** C7, as stated, fails: the scenario's first cycle finds and records
    the stop point at 110, valid for a front edge at 100; on the same
    reference line with the same (empty) obstacle list but the front edge
    at 108, the recorded point is less than [operation_length] ahead, so
    [GetPullOverStop] scans again and returns the site at 118. *)
Lemma cached_stop_dropped_when_vehicle_advances :
  let found := {| x := 110; y := - (3.5 - 2.1 / 2 - 0.3); z := 0 |} in
  let st1 := snd (BuildPullOverStop world_scenario requested found) in
  ApplyRule world_scenario requested 2
  = Some ([EvGetLaneFromS 105; EvGetLaneFromS 110; EvFindPullOverStop 110 0],
          Done st1)
  /\ status_stop_point (get_pull_over world_scenario st1) = Some found
  /\ IsValidStop world_scenario requested
       (XYToSL world_scenario (xy_of found)) = true
  /\ path_obstacles (next_cycle requested st1) = path_obstacles requested
  /\ GetPullOverStop world_advanced (next_cycle requested st1) 2
       (PointENU_default world_advanced)
     = Some ([EvGetLaneFromS 113; EvGetLaneFromS 118;
              EvFindPullOverStop 118 0],
             Done (0%Z, {| x := 118; y := - (3.5 - 2.1 / 2 - 0.3); z := 0 |}))
  /\ ~ reuses_cached world_advanced (next_cycle requested st1).
Proof.
  intros found st1.
  assert (Hscan : GetPullOverStop world_advanced (next_cycle requested st1) 2
                    (PointENU_default world_advanced)
                  = Some ([EvGetLaneFromS 113; EvGetLaneFromS 118;
                           EvFindPullOverStop 118 0],
                          Done (0%Z, {| x := 118;
                                        y := - (3.5 - 2.1 / 2 - 0.3);
                                        z := 0 |})))
    by reflexivity.
  repeat (split; [reflexivity|]).
  intros (cp & _ & Hreuse).
  destruct (Hreuse 2%nat (PointENU_default world_advanced)) as (q & Hq & _).
  rewrite Hscan in Hq. discriminate.
Qed.

(** C7, amended.  A cached stop point that passed [IsValidStop] in an
    earlier cycle is reused, under the same obstacles and the same
    reference line, as long as it is still at least [operation_length]
    ahead of the vehicle's current front edge: [GetPullOverStop] then
    returns the cached coordinates without one scanner event, whatever
    the fuel; [ApplyRule] builds the full pull-over stop on them, every
    stop decision it adds carries the cached x and y, and the status it
    leaves still caches the same stop point.  Once the vehicle is closer
    than [operation_length], the cached point is dropped and the scanner
    runs. *)
Theorem cached_stop_reused_while_ahead :
  forall (w : World) (adc : SLBoundary) (st1 st2 : Store) (fuel : nat)
         (sp cp : PointENU),
    let w2 := with_adc w adc in
    let sl := XYToSL w (xy_of cp) in
    let p := set_y (set_x (PointENU_default w) (x cp)) (y cp) in
    IsValidStop w st1 sl = true ->
    path_obstacles st2 = path_obstacles st1 ->
    IsPullOver w2 st2 = true ->
    status_start_point (get_pull_over w2 st2) = Some sp ->
    status_stop_point (get_pull_over w2 st2) = Some cp ->
    (operation_length (pull_over_config w) <= s sl - end_s adc ->
     GetPullOverStop w2 st2 fuel (PointENU_default w2)
     = Some ([], Done (0%Z, p))
     /\ exists st',
         ApplyRule w2 st2 fuel = Some ([], Done st')
         /\ st' = snd (BuildPullOverStop w2 st2 p)
         /\ (forall rule id d,
               In (rule, id, d) (longitudinal_decisions st') ->
               In (rule, id, d) (longitudinal_decisions st2)
               \/ (x (sd_stop_point d) = x cp /\ y (sd_stop_point d) = y cp))
         /\ IsPullOver w2 st' = true
         /\ status_stop_point (get_pull_over w2 st') = Some cp
         /\ (exists sp', status_start_point (get_pull_over w2 st') = Some sp'))
    /\ (s sl - end_s adc < operation_length (pull_over_config w) ->
        GetPullOverStop w2 st2 fuel (PointENU_default w2)
        = FindPullOverStop w2 st2 fuel p).
Proof.
  intros w adc st1 st2 fuel sp cp w2 sl p Hval Hobs Hon Hsp Hcp. split.
  - intros Hahead.
    assert (Hval2 : IsValidStop w2 st2 (XYToSL w2 (xy_of cp)) = true)
      by (apply (IsValidStop_with_adc w adc st1 st2 sl); assumption).
    destruct (valid_cache_is_reused w2 st2 fuel sp cp Hon Hsp Hcp Hval2)
      as (Hget & st' & Hrun & Hst' & Hdec & Hon' & Hstop & Hstart & _).
    split; [exact Hget|]. exists st'. repeat (split; [assumption|]).
    exact Hstart.
  - intros Hclose.
    apply (GetPullOverStop_invalid_cache w2 st2 fuel (PointENU_default w2)
             sp cp Hsp Hcp).
    unfold IsValidStop.
    destruct (out_of_range w2 (s (XYToSL w2 (xy_of cp)))); [reflexivity|].
    apply Qltb_lt in Hclose.
    change (Qltb (s sl - end_s adc) (operation_length (pull_over_config w))
            = true) in Hclose.
    cbn [w2 with_adc AdcSlBoundary pull_over_config XYToSL]. fold sl.
    now rewrite Hclose.
Qed.

Lemma cached_stop_reused_while_ahead_witness :
  GetPullOverStop (with_adc world_scenario (adc_at 105)) cached_110 0
    (PointENU_default world_scenario)
  = Some ([], Done (0%Z, {| x := 110; y := -2.15; z := 0 |}))
  /\ GetPullOverStop world_advanced cached_110 2
       (PointENU_default world_scenario)
     = FindPullOverStop world_advanced cached_110 2
         {| x := 110; y := -2.15; z := 0 |}.
Proof.
  split.
  - assert (Hboth := cached_stop_reused_while_ahead world_scenario (adc_at 105)
                       requested cached_110 0
                       {| x := 107; y := 0; z := 0 |}
                       {| x := 110; y := -2.15; z := 0 |}
                       eq_refl eq_refl eq_refl eq_refl eq_refl).
    destruct Hboth as [Hreuse _].
    assert (Hahead : operation_length (pull_over_config world_scenario)
                     <= 110 - 105) by discriminate.
    exact (proj1 (Hreuse Hahead)).
  - assert (Hboth := cached_stop_reused_while_ahead world_scenario (adc_at 108)
                       requested cached_110 2
                       {| x := 107; y := 0; z := 0 |}
                       {| x := 110; y := -2.15; z := 0 |}
                       eq_refl eq_refl eq_refl eq_refl eq_refl).
    destruct Hboth as [_ Hdrop].
    assert (Hclose : 110 - 108
                     < operation_length (pull_over_config world_scenario))
      by reflexivity.
    exact (Hdrop Hclose).
Defined.

(** ** The fallback clears the status *)

(** C8, as stated, fails: after the fallback cycle the request flag is
    gone with the cached points, so the next cycle, on the same reference
    line with a scan horizon of 40, returns at once and makes no pass of
    the scanner loop, whatever the fuel. *)
Lemma fallback_next_cycle_does_not_rescan :
  let stale := {| x := 50; y := -2.15; z := 0 |} in
  let st' := snd (BuildInLaneStop world_turning passed_cache stale) in
  ApplyRule world_turning passed_cache 8
  = Some ([EvGetLaneFromS 105; EvGetLaneFromS 110; EvGetLaneFromS 115;
           EvGetLaneFromS 120; EvGetLaneFromS 125; EvGetLaneFromS 130;
           EvGetLaneFromS 135; EvGetLaneFromS 140], Done st')
  /\ pull_over st' = None
  /\ 0 < max_check_distance (pull_over_config world_turning)
  /\ ApplyRule world_turning (next_cycle passed_cache st') 8
     = Some ([], Done (next_cycle passed_cache st'))
  /\ ~ exists fuel, rescans world_turning (next_cycle passed_cache st') fuel.
Proof.
  intros stale st'. repeat (split; [reflexivity|]).
  intros (fuel & tr & out & Hrun & Hit).
  change (ApplyRule world_turning (next_cycle passed_cache st') fuel)
    with (Some (@nil Event, Done (next_cycle passed_cache st'))) in Hrun.
  injection Hrun as Htr _. subst tr. exact (Nat.lt_irrefl _ Hit).
Qed.

(** C8, amended.  When pull-over is active and [GetPullOverStop] fails
    (nothing reusable is cached and the scanner returns -1), [ApplyRule]
    ends with the whole pull_over status cleared: no start point, no stop
    point, no heading, and no [in_pull_over] flag.  The next cycle
    therefore reuses no stale point, and it does not scan either: it
    returns at once, on any reference line and frame.  A later cycle
    whose status holds the points the fallback left, none, has nothing to
    reuse: its [GetPullOverStop] is the scanner. *)
Theorem fallback_clears_state :
  forall (w : World) (st : Store) (fuel : nat) (tr : list Event) (ret : Z)
         (p : PointENU),
    IsPullOver w st = true ->
    GetPullOverStop w st fuel (PointENU_default w) = Some (tr, Done (ret, p)) ->
    ret <> 0%Z ->
    FindPullOverStop w st fuel p = Some (tr, Done ((-1)%Z, p))
    /\ exists st',
        ApplyRule w st fuel = Some (tr, Done st')
        /\ pull_over st' = None
        /\ status_start_point (get_pull_over w st') = None
        /\ status_stop_point (get_pull_over w st') = None
        /\ status_stop_point_heading (get_pull_over w st') = None
        /\ (forall (w2 : World) (frame : Store) (fuel2 : nat),
              IsPullOver w2 (next_cycle frame st') = false
              /\ ApplyRule w2 (next_cycle frame st') fuel2
                 = Some ([], Done (next_cycle frame st')))
        /\ (forall (w2 : World) (st2 : Store) (fuel2 : nat) (q : PointENU),
              status_start_point (get_pull_over w2 st2)
              = status_start_point (get_pull_over w st') ->
              status_stop_point (get_pull_over w2 st2)
              = status_stop_point (get_pull_over w st') ->
              GetPullOverStop w2 st2 fuel2 q
              = FindPullOverStop w2 st2 fuel2 q).
Proof.
  intros w st fuel tr ret p Hon Hget Hne.
  destruct (GetPullOverStop_failed_point _ _ _ _ _ _ _ Hget Hne) as [Hscan _].
  split; [exact Hscan|].
  eexists. split.
  { rewrite (ApplyRule_active w st fuel Hon), Hget.
    apply Z.eqb_neq in Hne. rewrite Hne. reflexivity. }
  rewrite BuildInLaneStop_store.
  assert (Hnone : forall st0, pull_over (clear_pull_over st0) = None)
    by reflexivity.
  split; [apply Hnone|].
  unfold get_pull_over at 1 2 3. rewrite Hnone. cbn [PullOverStatus_default
    status_start_point status_stop_point status_stop_point_heading].
  repeat (split; [reflexivity|]). split.
  - intros w2 frame fuel2.
    assert (Hoff : IsPullOver w2 (next_cycle frame (clear_pull_over
                     (snd (BuildStopDecision w st
                       (s (XYToSL w (xy_of p))
                        - stop_distance (pull_over_config w))
                       (set_y (set_x (PointENU_default w)
                          (rx (GetReferencePoint w (s (XYToSL w (xy_of p))))))
                          (ry (GetReferencePoint w (s (XYToSL w (xy_of p))))))
                       (heading (GetReferencePoint w
                                   (s (XYToSL w (xy_of p)))))))))
                   = false) by reflexivity.
    split; [exact Hoff|]. unfold ApplyRule. now rewrite Hoff.
  - intros w2 st2 fuel2 q Hstart _. apply GetPullOverStop_no_cache. left.
    rewrite Hstart. unfold get_pull_over. now rewrite Hnone.
Qed.

Lemma fallback_clears_state_witness :
  exists st',
    ApplyRule world_turning passed_cache 8
    = Some ([EvGetLaneFromS 105; EvGetLaneFromS 110; EvGetLaneFromS 115;
             EvGetLaneFromS 120; EvGetLaneFromS 125; EvGetLaneFromS 130;
             EvGetLaneFromS 135; EvGetLaneFromS 140], Done st')
    /\ pull_over st' = None
    /\ ApplyRule world_scenario (next_cycle requested st') 8
       = Some ([], Done (next_cycle requested st')).
Proof.
  destruct (fallback_clears_state world_turning passed_cache 8
              [EvGetLaneFromS 105; EvGetLaneFromS 110; EvGetLaneFromS 115;
               EvGetLaneFromS 120; EvGetLaneFromS 125; EvGetLaneFromS 130;
               EvGetLaneFromS 135; EvGetLaneFromS 140]
              (-1)%Z {| x := 50; y := -2.15; z := 0 |})
    as [_ (st' & Hrun & Hnone & _ & _ & _ & Hnext & _)].
  - reflexivity.
  - reflexivity.
  - discriminate.
  - exists st'. split; [exact Hrun|]. split; [exact Hnone|].
    exact (proj2 (Hnext world_scenario requested 8%nat)).
Defined.

(** ** The full pull-over stop records its point unconditionally *)

(** C10.  [BuildPullOverStop] returns 0 and leaves a pull_over status
    holding the start point (the Cartesian point at
    [s - operation_length], lateral 0), the stop point's x and y and the
    heading at [s], whatever [BuildStopDecision] returned.  When
    [BuildStopDecision] fails, no obstacle and no stop decision is added,
    yet the point is recorded: a status that had no stop point has
    changed, and the next cycle's [GetPullOverStop] reuses the point if
    it is valid. *)
Theorem BuildPullOverStop_records_on_failure :
  forall (w : World) (st : Store) (p : PointENU),
    let sl := XYToSL w (xy_of p) in
    let h := heading (GetReferencePoint w (s sl)) in
    let st' := snd (BuildPullOverStop w st p) in
    fst (BuildPullOverStop w st p) = 0%Z
    /\ (exists po start stop,
          pull_over st' = Some po
          /\ status_start_point po = Some start
          /\ xy_of start
             = SLToXY w {| s := s sl - operation_length (pull_over_config w);
                           l := 0 |}
          /\ status_stop_point po = Some stop
          /\ xy_of stop = xy_of p
          /\ status_stop_point_heading po = Some h)
    /\ (fst (BuildStopDecision w st (s sl) p h) <> 0%Z ->
        path_obstacles st' = path_obstacles st
        /\ longitudinal_decisions st' = longitudinal_decisions st
        /\ (status_stop_point (get_pull_over w st) = None ->
            pull_over st' <> pull_over st)
        /\ (forall frame fuel q,
              IsValidStop w (next_cycle frame st') sl = true ->
              exists q',
                GetPullOverStop w (next_cycle frame st') fuel q
                = Some ([], Done (0%Z, q'))
                /\ xy_of q' = xy_of p)).
Proof.
  intros w st p sl h st'.
  assert (Hstatus := BuildPullOverStop_status w st p).
  cbv zeta in Hstatus. fold sl in Hstatus. fold h in Hstatus.
  fold st' in Hstatus.
  split; [|split].
  - unfold BuildPullOverStop. now destruct (BuildStopDecision _ _ _ _ _).
  - eexists _, _, _. split; [exact Hstatus|]. cbn.
    split; [reflexivity|]. split; [now destruct (SLToXY w _)|].
    split; [reflexivity|]. split; reflexivity.
  - intros Hfail.
    destruct (BuildPullOverStop_decisions w st p) as [Hdec Hobs].
    cbv zeta in Hdec, Hobs. fold sl in Hdec, Hobs. fold h in Hdec, Hobs.
    fold st' in Hdec, Hobs.
    rewrite (BuildStopDecision_failed w st (s sl) p h Hfail) in Hdec, Hobs.
    split; [exact Hobs|]. split; [exact Hdec|]. split.
    + intros Hnone Heq. rewrite Hstatus in Heq.
      unfold get_pull_over in Hnone.
      destruct (pull_over st) as [po|]; [|discriminate].
      injection Heq as <-. discriminate.
    + intros frame fuel q Hval.
      eexists. split.
      * eapply GetPullOverStop_valid_cache.
        -- unfold get_pull_over, next_cycle. cbn [pull_over].
           rewrite Hstatus. reflexivity.
        -- unfold get_pull_over, next_cycle. cbn [pull_over].
           rewrite Hstatus. reflexivity.
        -- exact Hval.
      * reflexivity.
Qed.

Lemma BuildPullOverStop_records_on_failure_witness :
  path_obstacles
    (snd (BuildPullOverStop world_no_wall requested
            {| x := 110; y := -2.15; z := 0 |})) = []
  /\ longitudinal_decisions
       (snd (BuildPullOverStop world_no_wall requested
               {| x := 110; y := -2.15; z := 0 |})) = []
  /\ pull_over
       (snd (BuildPullOverStop world_no_wall requested
               {| x := 110; y := -2.15; z := 0 |}))
     <> pull_over requested.
Proof.
  destruct (BuildPullOverStop_records_on_failure world_no_wall requested
              {| x := 110; y := -2.15; z := 0 |})
    as (_ & _ & Hfail).
  destruct Hfail as (Hobs & Hdec & Hchanged & _).
  - discriminate.
  - split; [exact Hobs|]. split; [exact Hdec|]. apply Hchanged. reflexivity.
Defined.

(** ** Arc lengths outside the reference line: the callers *)

(** C9, as stated, fails for one caller: [BuildPullOverStop] on a point
    at arc length 250, beyond the reference line's length of 200, gets -1
    from [BuildStopDecision], yet it returns 0 and records the point as
    the stop point of the pull-over status. *)
Lemma out_of_range_stop_is_still_recorded :
  let far := {| x := 250; y := -2.15; z := 0 |} in
  Length world_scenario < s (XYToSL world_scenario (xy_of far))
  /\ BuildStopDecision world_scenario requested
       (s (XYToSL world_scenario (xy_of far))) far 0
     = ((-1)%Z, requested)
  /\ fst (BuildPullOverStop world_scenario requested far) = 0%Z
  /\ status_stop_point
       (get_pull_over world_scenario
          (snd (BuildPullOverStop world_scenario requested far)))
     = Some far
  /\ ~ treated_as_no_point world_scenario requested far.
Proof.
  intros far. repeat (split; [reflexivity|]).
  intros [Hret | Hsame]; [now apply Hret | discriminate Hsame].
Qed.

(** C9, amended.  An arc length [v] outside [[0, Length]] is answered by
    a failure value, never by a fault: [IsValidStop] is false,
    [FindPullOverStop(v, _)] is -1 and leaves its out-parameter alone,
    [BuildStopDecision] is -1 and leaves the store alone.
    [GetPullOverStop] and the scanner go on without the point: the first
    drops such a cached point and runs the scanner, the second resets its
    run and continues.  The build paths do not look at the -1: both
    return 0 and add no obstacle and no stop decision, [BuildInLaneStop]
    clears the status, and [BuildPullOverStop] records start point, stop
    point and heading all the same. *)
Theorem out_of_range_is_failure :
  forall (w : World) (st : Store) (v : double),
    v < 0 \/ Length w < v ->
    (forall lat, IsValidStop w st {| s := v; l := lat |} = false)
    /\ (forall p, FindPullOverStop_at w st v p = ((-1)%Z, p))
    /\ (forall p h, BuildStopDecision w st v p h = ((-1)%Z, st))
    /\ (forall fuel p sp cp,
          status_start_point (get_pull_over w st) = Some sp ->
          status_stop_point (get_pull_over w st) = Some cp ->
          s (XYToSL w (xy_of cp)) = v ->
          GetPullOverStop w st fuel p
          = FindPullOverStop w st fuel (set_y (set_x p (x cp)) (y cp)))
    /\ (forall sv p lane,
          check_s sv + kDistanceUnit = v ->
          next_lane EmptyString (GetLaneFromS w v) = Some lane ->
          qualifies w lane v = true ->
          plan_distance (pull_over_config w)
            <= check_length sv + kDistanceUnit ->
          exists v',
            loop_body w st sv p
            = ([EvGetLaneFromS v; EvFindPullOverStop v (-1)], Continue v')
            /\ check_length v' = 0)
    /\ (forall p,
          s (XYToSL w (xy_of p)) - stop_distance (pull_over_config w) = v ->
          BuildInLaneStop w st p = (0%Z, clear_pull_over st))
    /\ (forall p,
          s (XYToSL w (xy_of p)) = v ->
          let st' := snd (BuildPullOverStop w st p) in
          fst (BuildPullOverStop w st p) = 0%Z
          /\ path_obstacles st' = path_obstacles st
          /\ longitudinal_decisions st' = longitudinal_decisions st
          /\ exists po start stop h,
              pull_over st' = Some po
              /\ status_start_point po = Some start
              /\ status_stop_point po = Some stop
              /\ xy_of stop = xy_of p
              /\ status_stop_point_heading po = Some h).
Proof.
  intros w st v Hout. apply out_of_range_iff in Hout.
  assert (Hat : forall p, FindPullOverStop_at w st v p = ((-1)%Z, p)).
  { intros p. unfold FindPullOverStop_at. now rewrite Hout. }
  assert (Hval : forall lat, IsValidStop w st {| s := v; l := lat |} = false).
  { intros lat. unfold IsValidStop. simpl. now rewrite Hout. }
  split; [|split; [|split; [|split; [|split; [|split]]]]].
  - exact Hval.
  - exact Hat.
  - intros p h. now apply BuildStopDecision_out_of_range.
  - intros fuel p sp cp Hsp Hcp Hs.
    apply GetPullOverStop_invalid_cache with (sp := sp); auto.
    destruct (XYToSL w (xy_of cp)) as [s0 l0]. simpl in Hs. subst s0.
    apply Hval.
  - intros sv p lane Hcs Hlane Hq Hrun.
    subst v. rewrite (loop_body_checked w st sv p lane Hlane Hq Hrun).
    cbv zeta. rewrite Hat. eexists. split; reflexivity.
  - intros p Hs. unfold BuildInLaneStop. rewrite Hs.
    now rewrite BuildStopDecision_out_of_range.
  - intros p Hs st'.
    assert (Hstatus := BuildPullOverStop_status w st p).
    cbv zeta in Hstatus. fold st' in Hstatus.
    destruct (BuildPullOverStop_decisions w st p) as [Hdec Hobs].
    cbv zeta in Hdec, Hobs. fold st' in Hdec, Hobs.
    rewrite Hs in Hdec, Hobs.
    rewrite BuildStopDecision_out_of_range in Hdec, Hobs by assumption.
    split.
    { unfold BuildPullOverStop. now destruct (BuildStopDecision _ _ _ _ _). }
    split; [exact Hobs|]. split; [exact Hdec|].
    eexists _, _, _, _. split; [exact Hstatus|]. cbn.
    repeat (split; [reflexivity|]). reflexivity.
Qed.

Lemma out_of_range_is_failure_witness :
  IsValidStop world_scenario requested {| s := 250; l := -2.15 |} = false
  /\ FindPullOverStop_at world_scenario requested 250
       (PointENU_default world_scenario)
     = ((-1)%Z, PointENU_default world_scenario)
  /\ BuildStopDecision world_scenario requested 250
       {| x := 250; y := 0; z := 0 |} 0
     = ((-1)%Z, requested)
  /\ fst (BuildPullOverStop world_scenario requested
            {| x := 250; y := -2.15; z := 0 |}) = 0%Z.
Proof.
  destruct (out_of_range_is_failure world_scenario requested 250)
    as (Hval & Hat & Hbuild & _ & _ & _ & Hrecord).
  - right. reflexivity.
  - split; [apply Hval|]. split; [apply Hat|]. split; [apply Hbuild|].
    destruct (Hrecord {| x := 250; y := -2.15; z := 0 |}) as [Hret _];
      [reflexivity | exact Hret].
Defined.

(** * Further properties of the code *)

(** ** OnOverlap and the lane checks *)

Lemma within_covers (v : double) (o : PathOverlap) :
  within v o = true <-> covers o v.
Proof.
  unfold within, covers, Qgeb, Qleb.
  now rewrite andb_true_iff, !Qle_bool_iff.
Qed.

Lemma existsb_within (v : double) (zones : list PathOverlap) :
  existsb (within v) zones = true <-> exists o, In o zones /\ covers o v.
Proof.
  rewrite existsb_exists. split; intros (o & Hin & Hc); exists o;
    (split; [exact Hin | now apply within_covers]).
Qed.

(** X1.  [OnOverlap] answers true exactly when the arc length lies in the
    closed interval of some crosswalk, junction, clear area or speed bump
    overlap of the reference line; both interval ends count as inside. *)
Theorem OnOverlap_iff :
  forall (w : World) (v : double),
    OnOverlap w v = true <->
    exists o,
      (In o (crosswalk_overlaps w) \/ In o (junction_overlaps w)
       \/ In o (clear_area_overlaps w) \/ In o (speed_bump_overlaps w))
      /\ covers o v.
Proof.
  intros w v. unfold OnOverlap.
  destruct (existsb (within v) (crosswalk_overlaps w)) eqn:H1.
  { apply existsb_within in H1 as (o & Hin & Hc). split; [|reflexivity].
    intros _. exists o. tauto. }
  destruct (existsb (within v) (junction_overlaps w)) eqn:H2.
  { apply existsb_within in H2 as (o & Hin & Hc). split; [|reflexivity].
    intros _. exists o. tauto. }
  destruct (existsb (within v) (clear_area_overlaps w)) eqn:H3.
  { apply existsb_within in H3 as (o & Hin & Hc). split; [|reflexivity].
    intros _. exists o. tauto. }
  destruct (existsb (within v) (speed_bump_overlaps w)) eqn:H4.
  { apply existsb_within in H4 as (o & Hin & Hc). split; [|reflexivity].
    intros _. exists o. tauto. }
  split; [discriminate|].
  intros (o & Hin & Hc). exfalso.
  assert (Hno : forall zones, existsb (within v) zones = false ->
                              ~ In o zones).
  { intros zones Hf Hin'. apply not_true_iff_false in Hf. apply Hf.
    apply existsb_within. now exists o. }
  destruct Hin as [Hin | [Hin | [Hin | Hin]]];
    [apply (Hno _ H1) | apply (Hno _ H2) | apply (Hno _ H3) | apply (Hno _ H4)];
    exact Hin.
Qed.

Lemma OnOverlap_iff_witness :
  OnOverlap (with_crosswalk world_scenario
               {| ov_start_s := 105; ov_end_s := 110 |}) 110 = true
  /\ OnOverlap (with_crosswalk world_scenario
                  {| ov_start_s := 105; ov_end_s := 110 |}) 105 = true.
Proof.
  split.
  - apply (proj2 (OnOverlap_iff _ 110)).
    exists {| ov_start_s := 105; ov_end_s := 110 |}.
    split; [left; left; reflexivity | split; discriminate].
  - apply (proj2 (OnOverlap_iff _ 105)).
    exists {| ov_start_s := 105; ov_end_s := 110 |}.
    split; [left; left; reflexivity | split; discriminate].
Defined.

(** X2.  A lane fails the rightmost-driving-lane check exactly when one
    of its right forward neighbours is found in the base map with type
    CITY_DRIVING; neighbours the base map does not know are ignored, and
    so are bike lanes, sidewalks and parking lanes. *)
Theorem rightmost_driving_lane_iff :
  forall (w : World) (neighbors : list string),
    rightmost_driving_lane w neighbors = false <->
    exists id neighbor_lane,
      In id neighbors
      /\ GetLaneById w id = Some neighbor_lane
      /\ lane_type neighbor_lane = CITY_DRIVING.
Proof.
  intros w. induction neighbors as [|id rest IH]; simpl.
  - split; [discriminate | now intros (? & ? & [] & _)].
  - destruct (GetLaneById w id) as [nl|] eqn:Hget.
    + destruct (LaneType_eqb (lane_type nl) CITY_DRIVING) eqn:Hty.
      * split; [|reflexivity]. intros _. exists id, nl.
        split; [now left|]. split; [exact Hget|].
        destruct (lane_type nl); try discriminate; reflexivity.
      * rewrite IH. split.
        -- intros (id' & nl' & Hin & Hg & Ht). exists id', nl'.
           split; [now right | now split].
        -- intros (id' & nl' & [<- | Hin] & Hg & Ht).
           ++ rewrite Hget in Hg. injection Hg as <-.
              rewrite Ht in Hty. discriminate.
           ++ now exists id', nl'.
    + rewrite IH. split.
      * intros (id' & nl' & Hin & Hg & Ht). exists id', nl'.
        split; [now right | now split].
      * intros (id' & nl' & [<- | Hin] & Hg & Ht).
        -- rewrite Hget in Hg. discriminate.
        -- now exists id', nl'.
Qed.

Lemma rightmost_driving_lane_iff_witness :
  rightmost_driving_lane (with_base_map world_scenario base_map)
    ["unknown"; "bike"; "lane_1"]%string = false
  /\ rightmost_driving_lane (with_base_map world_scenario base_map)
       ["unknown"; "bike"]%string = true.
Proof.
  split.
  - apply (proj2 (rightmost_driving_lane_iff _ _)).
    exists "lane_1"%string, straight_lane.
    split; [right; right; left; reflexivity | split; reflexivity].
  - apply not_false_iff_true. intros Hfalse.
    apply (proj1 (rightmost_driving_lane_iff _ _)) in Hfalse.
    destruct Hfalse as (id & nl & Hin & Hget & Hty).
    destruct Hin as [<- | [<- | []]]; simpl in Hget.
    + discriminate.
    + injection Hget as <-. discriminate.
Defined.

Lemma next_lane_none (lanes : list LaneInfo) :
  next_lane EmptyString lanes = None
  <-> forall lane, In lane lanes -> lane_id lane = EmptyString.
Proof.
  induction lanes as [|lane rest IH]; simpl.
  - split; [now intros _ ? [] | reflexivity].
  - destruct (String.eqb_spec (lane_id lane) EmptyString) as [Hid | Hid].
    + rewrite IH. split.
      * intros Hall lane' [<- | Hin]; [exact Hid | now apply Hall].
      * intros Hall lane' Hin. apply Hall. now right.
    + split; [discriminate|]. intros Hall. elim Hid. apply Hall. now left.
Qed.

(** X3.  A pass of the scanner loop dereferences a null [lane] exactly
    when every lane the lookup returns at the sample has an empty id; an
    empty lookup is the special case.  The lane the loop keeps is
    otherwise the first one with a non-empty id. *)
Theorem loop_body_fault_iff :
  forall (w : World) (st : Store) (v : ScanVars) (p : PointENU),
    let lanes := GetLaneFromS w (check_s v + kDistanceUnit) in
    (snd (loop_body w st v p) = NullDeref
     <-> forall lane, In lane lanes -> lane_id lane = EmptyString)
    /\ (forall unnamed lane rest,
          lanes = (unnamed ++ lane :: rest)%list ->
          (forall u, In u unnamed -> lane_id u = EmptyString) ->
          lane_id lane <> EmptyString ->
          next_lane EmptyString lanes = Some lane).
Proof.
  intros w st v p lanes. split.
  - rewrite <- next_lane_none. fold lanes. split.
    + intros Hfault.
      destruct (next_lane EmptyString lanes) as [lane|] eqn:Hnext;
        [|reflexivity].
      exfalso. apply (loop_body_no_fault w st v p); [|exact Hfault].
      fold lanes. now rewrite Hnext.
    + intros Hnone. unfold loop_body. cbn [advance check_s].
      fold lanes. now rewrite Hnone.
  - intros unnamed lane rest -> Hun Hid.
    induction unnamed as [|u unnamed IH]; simpl.
    + destruct (String.eqb_spec (lane_id lane) EmptyString); [contradiction|].
      reflexivity.
    + rewrite (Hun u) by now left. simpl. apply IH.
      intros u' Hin. apply Hun. now right.
Qed.

Lemma loop_body_fault_iff_witness :
  snd (loop_body (road (fun _ => [unnamed_lane; unnamed_lane]) 100
                    stop_wall_factory)
         requested after_first_pass {| x := 0; y := 0; z := 0 |})
  = NullDeref
  /\ next_lane EmptyString [unnamed_lane; turning_lane; straight_lane]
     = Some turning_lane.
Proof.
  destruct (loop_body_fault_iff
              (road (fun _ => [unnamed_lane; unnamed_lane]) 100
                 stop_wall_factory)
              requested after_first_pass {| x := 0; y := 0; z := 0 |})
    as [Hiff _].
  split.
  - apply (proj2 Hiff). intros lane [<- | [<- | []]]; reflexivity.
  - destruct (loop_body_fault_iff
                (road (fun _ => [unnamed_lane; turning_lane; straight_lane])
                   100 stop_wall_factory)
                requested after_first_pass {| x := 0; y := 0; z := 0 |})
      as [_ Hfirst].
    apply (Hfirst [unnamed_lane] turning_lane [straight_lane]).
    + reflexivity.
    + intros u [<- | []]. reflexivity.
    + discriminate.
Defined.

(** ** The validator, in full *)

Lemma overlap_false_iff (parking obstacle_sl : SLBoundary) :
  overlap parking obstacle_sl = false <-> separated parking obstacle_sl.
Proof.
  unfold overlap, separated, Qgtb.
  rewrite negb_false_iff, !orb_true_iff, !Qltb_lt. tauto.
Qed.

Lemma blocks_false_iff (parking : SLBoundary) (po : PathObstacle) :
  blocks parking po = false <->
  IsVirtual (obstacle po) = true \/ IsStatic (obstacle po) = false
  \/ separated parking (PerceptionSLBoundary po).
Proof.
  unfold blocks.
  rewrite !andb_false_iff, negb_false_iff, overlap_false_iff. tauto.
Qed.

Lemma check_obstacles_iff (parking : SLBoundary) (items : list PathObstacle) :
  check_obstacles parking items = true <->
  forall po, In po items ->
    IsVirtual (obstacle po) = true \/ IsStatic (obstacle po) = false
    \/ separated parking (PerceptionSLBoundary po).
Proof.
  rewrite check_obstacles_forallb, forallb_forall.
  split; intros Hall po Hin; specialize (Hall po Hin).
  - apply blocks_false_iff. now apply negb_true_iff.
  - apply negb_true_iff. now apply blocks_false_iff.
Qed.

(** X4.  [IsValidStop] accepts an SL point exactly when its arc length
    lies on the reference line, it is at least [operation_length] ahead
    of the vehicle's front edge, and every path obstacle is virtual, or
    not static, or apart from the parking rectangle on the s axis or on
    the l axis (boxes that merely touch are not apart). *)
Theorem IsValidStop_iff :
  forall (w : World) (st : Store) (sl : SLPoint),
    IsValidStop w st sl = true <->
    0 <= s sl /\ s sl <= Length w
    /\ operation_length (pull_over_config w)
       <= s sl - end_s (AdcSlBoundary w)
    /\ forall po, In po (path_obstacles st) ->
         IsVirtual (obstacle po) = true \/ IsStatic (obstacle po) = false
         \/ separated (parking_spot_boundary w sl) (PerceptionSLBoundary po).
Proof.
  intros w st sl. unfold IsValidStop.
  destruct (out_of_range w (s sl)) eqn:Hrange.
  { apply out_of_range_iff in Hrange. split; [discriminate|].
    intros (H0 & Hlen & _). exfalso.
    destruct Hrange as [Hneg | Hbig];
      [apply (Qlt_not_le _ _ Hneg H0) | apply (Qlt_not_le _ _ Hbig Hlen)]. }
  apply in_range_iff in Hrange. destruct Hrange as [H0 Hlen].
  destruct (Qltb _ _) eqn:Hclose.
  { apply Qltb_lt in Hclose. split; [discriminate|].
    intros (_ & _ & Hop & _). exfalso. apply (Qlt_not_le _ _ Hclose Hop). }
  apply Qltb_ge in Hclose. rewrite check_obstacles_iff. tauto.
Qed.

Lemma IsValidStop_iff_witness :
  IsValidStop world_scenario
    (with_obstacles requested
       [{| obstacle := {| ObstacleId := "1002"; IsVirtual := false;
                          IsStatic := true |};
           PerceptionSLBoundary :=
             {| start_s := 112; end_s := 120; start_l := -3; end_l := 0 |} |}])
    {| s := 110; l := -2.15 |} = true.
Proof.
  apply (proj2 (IsValidStop_iff _ _ _)). simpl.
  split; [discriminate|]. split; [discriminate|]. split; [discriminate|].
  intros po [<- | []]. right. right. right. left. reflexivity.
Defined.

(** X5.  Taking obstacles away never invalidates a stop: a point valid
    against a list of path obstacles is valid against every list drawn
    from it, whatever the order or the repetitions. *)
Theorem IsValidStop_fewer_obstacles :
  forall (w : World) (st : Store) (sl : SLPoint) (items : list PathObstacle),
    (forall po, In po items -> In po (path_obstacles st)) ->
    IsValidStop w st sl = true ->
    IsValidStop w (with_obstacles st items) sl = true.
Proof.
  intros w st sl items Hincl Hval.
  apply IsValidStop_iff in Hval as (H0 & Hlen & Hop & Hall).
  apply IsValidStop_iff. simpl. repeat (split; [assumption|]).
  intros po Hin. apply Hall, Hincl, Hin.
Qed.

Lemma IsValidStop_fewer_obstacles_witness :
  IsValidStop world_scenario
    (with_obstacles
       (with_obstacles requested [mark parked_car true true;
                                  mark parked_car false false])
       [mark parked_car false false; mark parked_car false false])
    {| s := 110; l := -2.15 |} = true.
Proof.
  apply (IsValidStop_fewer_obstacles world_scenario
           (with_obstacles requested [mark parked_car true true;
                                      mark parked_car false false])).
  - intros po [<- | [<- | []]]; right; left; reflexivity.
  - reflexivity.
Defined.

(** ** The scanner as a whole *)

Lemma FindPullOverStop_fuel_irrelevant w st p fuel fuel' :
  (scan_bound w <= fuel)%nat -> (scan_bound w <= fuel')%nat ->
  FindPullOverStop w st fuel p = FindPullOverStop w st fuel' p.
Proof.
  intros Hf Hf'.
  destruct (FindPullOverStop_bounded w st p (scan_bound w) (Nat.le_refl _))
    as (tr & out & Hrun & _).
  unfold FindPullOverStop in *.
  rewrite (scan_loop_fuel_mono _ _ _ _ _ _ Hrun fuel Hf).
  now rewrite (scan_loop_fuel_mono _ _ _ _ _ _ Hrun fuel' Hf').
Qed.


(** X7.  One cycle always ends: given [ceil(max_check_distance / 5)]
    passes of fuel or more, [ApplyRule] yields an outcome after at most
    that many passes of the scanner loop, and the outcome does not depend
    on how much more fuel is given. *)
Theorem ApplyRule_terminates :
  forall (w : World) (st : Store) (fuel : nat),
    (scan_bound w <= fuel)%nat ->
    (exists tr out,
        ApplyRule w st fuel = Some (tr, out)
        /\ (iterations tr <= scan_bound w)%nat)
    /\ forall fuel', (scan_bound w <= fuel')%nat ->
         ApplyRule w st fuel' = ApplyRule w st fuel.
Proof.
  intros w st fuel Hfuel.
  assert (Hget : forall p,
             (exists tr out,
                 GetPullOverStop w st fuel p = Some (tr, out)
                 /\ (iterations tr <= scan_bound w)%nat)
             /\ forall fuel', (scan_bound w <= fuel')%nat ->
                  GetPullOverStop w st fuel' p = GetPullOverStop w st fuel p).
  { intros p.
    destruct (status_start_point (get_pull_over w st)) as [sp|] eqn:Hsp;
      [destruct (status_stop_point (get_pull_over w st)) as [cp|] eqn:Hcp|].
    - destruct (IsValidStop w st (XYToSL w (xy_of cp))) eqn:Hval.
      + split.
        * rewrite (GetPullOverStop_valid_cache w st fuel p sp cp Hsp Hcp Hval).
          eexists _, _. split; [reflexivity | apply Nat.le_0_l].
        * intros fuel' _.
          now rewrite !(GetPullOverStop_valid_cache w st _ p sp cp Hsp Hcp Hval).
      + split.
        * rewrite (GetPullOverStop_invalid_cache w st fuel p sp cp Hsp Hcp Hval).
          now apply FindPullOverStop_bounded.
        * intros fuel' Hf'.
          rewrite !(GetPullOverStop_invalid_cache w st _ p sp cp Hsp Hcp Hval).
          now apply FindPullOverStop_fuel_irrelevant.
    - split.
      + rewrite (GetPullOverStop_no_cache w st fuel p) by now right.
        now apply FindPullOverStop_bounded.
      + intros fuel' Hf'.
        rewrite !(GetPullOverStop_no_cache w st _ p) by now right.
        now apply FindPullOverStop_fuel_irrelevant.
    - split.
      + rewrite (GetPullOverStop_no_cache w st fuel p) by now left.
        now apply FindPullOverStop_bounded.
      + intros fuel' Hf'.
        rewrite !(GetPullOverStop_no_cache w st _ p) by now left.
        now apply FindPullOverStop_fuel_irrelevant. }
  unfold ApplyRule. destruct (IsPullOver w st); cbn [negb].
  2:{ split; [|reflexivity]. eexists _, _.
      split; [reflexivity | apply Nat.le_0_l]. }
  destruct (Hget (PointENU_default w)) as [(tr & out & Hrun & Hit) Hsame].
  split.
  - rewrite Hrun. destruct out as [|[ret q]].
    + eexists _, _. split; [reflexivity | exact Hit].
    + destruct (ret =? 0)%Z; eexists _, _; (split; [reflexivity | exact Hit]).
  - intros fuel' Hf'. now rewrite (Hsame fuel' Hf').
Qed.

Lemma ApplyRule_terminates_witness :
  (exists tr out,
      ApplyRule world_turning passed_cache 8 = Some (tr, out)
      /\ (iterations tr <= 8)%nat)
  /\ ApplyRule world_turning passed_cache 20
     = ApplyRule world_turning passed_cache 8.
Proof.
  destruct (ApplyRule_terminates world_turning passed_cache 8) as [Hrun Hsame].
  - apply Nat.le_refl.
  - split; [exact Hrun|]. apply Hsame. repeat constructor.
Defined.

Lemma FindPullOverStop_at_found w st cs p0 point :
  FindPullOverStop_at w st cs p0 = (0%Z, point) ->
  out_of_range w cs = false
  /\ IsValidStop w st (stop_point_sl_at w cs) = true
  /\ xy_of point = SLToXY w (stop_point_sl_at w cs)
  /\ z point = z p0.
Proof.
  unfold FindPullOverStop_at.
  destruct (out_of_range w cs); [discriminate|].
  destruct (IsValidStop w st (stop_point_sl_at w cs)); [|discriminate].
  intros [= <-]. repeat split. now destruct (SLToXY w _).
Qed.

Lemma loop_body_return w st v p ev q :
  loop_body w st v p = (ev, Return0 q) ->
  let cs := check_s v + kDistanceUnit in
  ev = [EvGetLaneFromS cs; EvFindPullOverStop cs 0]
  /\ plan_distance (pull_over_config w) <= check_length v + kDistanceUnit
  /\ IsValidStop w st (stop_point_sl_at w cs) = true
  /\ xy_of q = SLToXY w (stop_point_sl_at w cs)
  /\ z q = z p.
Proof.
  unfold loop_body. cbn [advance extend check_s check_length].
  destruct (next_lane _ _) as [lane|]; [|discriminate].
  destruct (negb (LaneTurn_eqb _ _)); [discriminate|].
  destruct (negb (rightmost_driving_lane _ _)); [discriminate|].
  destruct (OnOverlap _ _); [discriminate|].
  destruct (Qgeb _ _) eqn:Hrun; [|discriminate].
  destruct (FindPullOverStop_at _ _ _ _) as [ret point] eqn:Hat.
  destruct (Z.eqb_spec ret 0) as [-> | Hne]; cbn [negb]; [|discriminate].
  intros [= <- <-].
  apply FindPullOverStop_at_found in Hat as (_ & Hval & Hxy & _).
  apply Qgeb_ge in Hrun. repeat split; try assumption.
Qed.

Lemma loop_body_continue w st v p ev v' :
  loop_body w st v p = (ev, Continue v') ->
  total_check_length v' = total_check_length v + kDistanceUnit
  /\ check_s v' = check_s v + kDistanceUnit
  /\ (check_length v' = 0 \/ check_length v' = check_length v + kDistanceUnit)
  /\ forall cs ret, In (EvFindPullOverStop cs ret) ev -> ret <> 0%Z.
Proof.
  unfold loop_body. cbn [advance extend check_s check_length].
  assert (Hnone : forall cs ret e,
             In (EvFindPullOverStop cs ret) [EvGetLaneFromS e] -> ret <> 0%Z)
    by (intros cs ret e [H | []]; discriminate).
  destruct (next_lane _ _) as [lane|]; [|discriminate].
  destruct (negb (LaneTurn_eqb _ _));
    [intros [= <- <-]; repeat split; eauto|].
  destruct (negb (rightmost_driving_lane _ _));
    [intros [= <- <-]; repeat split; eauto|].
  destruct (OnOverlap _ _); [intros [= <- <-]; repeat split; eauto|].
  destruct (Qgeb _ _); [|intros [= <- <-]; repeat split; eauto].
  destruct (FindPullOverStop_at _ _ _ _) as [ret point].
  destruct (Z.eqb_spec ret 0) as [-> | Hne]; cbn [negb]; [discriminate|].
  intros [= <- <-]. repeat split; eauto.
  intros cs r [H | [[= _ <-] | []]]; [discriminate | exact Hne].
Qed.

Lemma inject_Z_succ (n : nat) :
  inject_Z (Z.of_nat (S n)) == 1 + inject_Z (Z.of_nat n).
Proof.
  rewrite Nat2Z.inj_succ. unfold Z.succ. rewrite inject_Z_plus.
  change (inject_Z 1) with 1. ring.
Qed.

(** What a successful scan from [v] on has done. *)
Lemma scan_loop_found w st p :
  forall fuel v tr q,
    0 <= check_length v ->
    scan_loop w st fuel v p = Some (tr, Done (0%Z, q)) ->
    exists cs tr0,
      tr = (tr0 ++ [EvFindPullOverStop cs 0])%list
      /\ IsValidStop w st (stop_point_sl_at w cs) = true
      /\ xy_of q = SLToXY w (stop_point_sl_at w cs)
      /\ z q = z p
      /\ cs == check_s v + kDistanceUnit * inject_Z (Z.of_nat (iterations tr))
      /\ plan_distance (pull_over_config w)
         <= check_length v + (cs - check_s v)
      /\ cs - check_s v
         < max_check_distance (pull_over_config w) - total_check_length v
           + kDistanceUnit.
Proof.
  induction fuel as [|fuel IH]; intros v tr q Hpos; simpl.
  - destruct (Qltb _ _); discriminate.
  - destruct (Qltb _ _) eqn:Hcond; [|discriminate].
    apply Qltb_lt in Hcond.
    assert (Hone := loop_body_one_sample w st v p).
    destruct (loop_body w st v p) as [ev [v'| p' |]] eqn:Hbody;
      cbn [fst] in Hone.
    + destruct (scan_loop w st fuel v' p) as [[tr' out']|] eqn:Hrec;
        [|discriminate].
      unfold with_events. cbn [option_map fst snd]. intros [= <- ->].
      apply loop_body_continue in Hbody as (Ht & Hs & Hl & _).
      destruct (IH v' tr' q) as (cs & tr0 & Htr & Hval & Hxy & Hz & Hcs
                                 & Hplan & Hmax);
        [destruct Hl as [-> | ->]; unfold kDistanceUnit; lra | exact Hrec |].
      exists cs, (ev ++ tr0)%list.
      split; [now rewrite Htr, app_assoc|].
      repeat (split; [assumption|]).
      rewrite iterations_app, Hone. change (1 + iterations tr')%nat
        with (S (iterations tr')). rewrite inject_Z_succ.
      rewrite Hs, Ht in *. revert Hcs Hplan Hmax.
      generalize (inject_Z (Z.of_nat (iterations tr'))) as n.
      unfold kDistanceUnit in *. intros n Hcs Hplan Hmax.
      split; [lra|]. split; [|lra].
      destruct Hl as [Hl | Hl]; rewrite Hl in Hplan; lra.
    + intros [= <- <-].
      apply loop_body_return in Hbody as (-> & Hplan & Hval & Hxy & Hz).
      exists (check_s v + kDistanceUnit),
        [EvGetLaneFromS (check_s v + kDistanceUnit)].
      split; [reflexivity|]. repeat (split; [assumption|]).
      cbn. unfold kDistanceUnit in *. split; [ring|]. split; lra.
    + discriminate.
Qed.

(** X8.  A point the scanner returns has been validated: it is the
    Cartesian image of the parking spot at a sampled arc length [cs] that
    [IsValidStop] accepted, the last event of the scan.  That arc length
    is the front edge plus 5 per pass made; it is on the reference line,
    at least [operation_length] and at least [plan_distance] ahead of the
    front edge, and less than one step beyond the scan horizon. *)
Theorem FindPullOverStop_found_is_valid :
  forall (w : World) (st : Store) (fuel : nat) (p q : PointENU)
         (tr : list Event),
    FindPullOverStop w st fuel p = Some (tr, Done (0%Z, q)) ->
    let front := end_s (AdcSlBoundary w) in
    exists cs tr0,
      tr = (tr0 ++ [EvFindPullOverStop cs 0])%list
      /\ IsValidStop w st (stop_point_sl_at w cs) = true
      /\ xy_of q = SLToXY w (stop_point_sl_at w cs)
      /\ z q = z p
      /\ cs == front + 5 * inject_Z (Z.of_nat (iterations tr))
      /\ 0 <= cs /\ cs <= Length w
      /\ front + operation_length (pull_over_config w) <= cs
      /\ front + plan_distance (pull_over_config w) <= cs
      /\ cs < front + max_check_distance (pull_over_config w) + 5.
Proof.
  intros w st fuel p q tr Hrun front. unfold FindPullOverStop in Hrun.
  destruct (scan_loop_found w st p fuel (scan_init w) tr q)
    as (cs & tr0 & Htr & Hval & Hxy & Hz & Hcs & Hplan & Hmax);
    [apply Qle_refl | exact Hrun |].
  exists cs, tr0. cbn [scan_init check_s check_length total_check_length]
    in Hcs, Hplan, Hmax. fold front in Hcs, Hplan, Hmax.
  apply IsValidStop_iff in Hval as Hfacts.
  cbn [stop_point_sl_at s] in Hfacts.
  destruct Hfacts as (H0 & Hlen & Hop & _). fold front in Hop.
  unfold kDistanceUnit in *.
  split; [exact Htr|]. split; [exact Hval|]. split; [exact Hxy|].
  split; [exact Hz|]. split; [exact Hcs|]. split; [exact H0|].
  split; [exact Hlen|]. clear Hcs.
  split; [lra|]. split; lra.
Qed.

Lemma FindPullOverStop_found_is_valid_witness :
  exists cs tr0,
    [EvGetLaneFromS 105; EvGetLaneFromS 110; EvGetLaneFromS 115;
     EvFindPullOverStop 115 0]
    = (tr0 ++ [EvFindPullOverStop cs 0])%list
    /\ IsValidStop world_overshoot requested
         (stop_point_sl_at world_overshoot cs) = true
    /\ 100 + 15 <= cs
    /\ cs < 100 + 12 + 5.
Proof.
  destruct (FindPullOverStop_found_is_valid world_overshoot requested 3
              {| x := 0; y := 0; z := 0 |}
              {| x := 115; y := - (3.5 - 2.1 / 2 - 0.3); z := 0 |}
              [EvGetLaneFromS 105; EvGetLaneFromS 110; EvGetLaneFromS 115;
               EvFindPullOverStop 115 0])
    as (cs & tr0 & Htr & Hval & _ & _ & _ & _ & _ & _ & Hplan & Hmax).
  - reflexivity.
  - exists cs, tr0. split; [exact Htr|]. split; [exact Hval|].
    split; [exact Hplan | exact Hmax].
Defined.

Lemma Qceiling_unique (q : Q) (n : Z) :
  inject_Z n - 1 < q -> q <= inject_Z n -> Qceiling q = n.
Proof.
  intros Hlo Hhi.
  assert (Hc1 := Qceiling_lt q). assert (Hc2 := Qle_ceiling q).
  unfold Z.sub in Hc1. rewrite inject_Z_plus, inject_Z_opp in Hc1.
  change (inject_Z 1) with 1 in Hc1.
  assert (H1 : inject_Z (Qceiling q) < inject_Z (n + 1)).
  { rewrite inject_Z_plus. change (inject_Z 1) with 1.
    revert Hc1 Hhi. generalize (inject_Z (Qceiling q)) (inject_Z n).
    intros a b Hc1 Hhi. lra. }
  assert (H2 : inject_Z n < inject_Z (Qceiling q + 1)).
  { rewrite inject_Z_plus. change (inject_Z 1) with 1.
    revert Hc2 Hlo. generalize (inject_Z (Qceiling q)) (inject_Z n).
    intros a b Hc2 Hlo. lra. }
  rewrite <- Zlt_Qlt in H1, H2. lia.
Qed.

Lemma passes_left_exact_step w v v' :
  total_check_length v' = total_check_length v + kDistanceUnit ->
  passes_left w v' = (passes_left w v - 1)%Z.
Proof.
  intros Ht. unfold passes_left. rewrite Ht.
  generalize (max_check_distance (pull_over_config w)) as m.
  generalize (total_check_length v) as t. intros t m.
  assert (Hc1 := Qceiling_lt ((m - t) / kDistanceUnit)).
  assert (Hc2 := Qle_ceiling ((m - t) / kDistanceUnit)).
  revert Hc1 Hc2. generalize (Qceiling ((m - t) / kDistanceUnit)) as c.
  intros c Hc1 Hc2.
  assert (Heq : (m - (t + kDistanceUnit)) / kDistanceUnit
                == (m - t) / kDistanceUnit - 1)
    by (unfold kDistanceUnit; field).
  apply Qceiling_unique; rewrite Heq; clear Heq;
    unfold Z.sub in *; rewrite inject_Z_plus, inject_Z_opp in *;
    change (inject_Z 1) with 1 in *;
    revert Hc1 Hc2;
    generalize ((m - t) / kDistanceUnit) as q; generalize (inject_Z c) as a;
    intros a q Hc1 Hc2; lra.
Qed.

Lemma passes_left_done w v :
  max_check_distance (pull_over_config w) <= total_check_length v ->
  (passes_left w v <= 0)%Z.
Proof.
  intros Hge. unfold passes_left.
  rewrite <- (Qceiling_Z 0). apply Qceiling_resp_le.
  change (inject_Z 0) with 0. unfold kDistanceUnit.
  apply Qle_shift_div_r; lra.
Qed.

(** What a failed scan from [v] on has done. *)
Lemma scan_loop_failed w st p :
  forall fuel v tr ret q,
    scan_loop w st fuel v p = Some (tr, Done (ret, q)) ->
    ret <> 0%Z ->
    Z.of_nat (iterations tr) = Z.max 0 (passes_left w v)
    /\ forall cs r, In (EvFindPullOverStop cs r) tr -> r <> 0%Z.
Proof.
  induction fuel as [|fuel IH]; intros v tr ret q; simpl.
  - destruct (Qltb _ _) eqn:Hcond; [discriminate|].
    intros [= <- _ _] _. apply Qltb_ge, (passes_left_done w) in Hcond.
    split; [simpl; lia | now intros ? ? []].
  - destruct (Qltb _ _) eqn:Hcond.
    2:{ intros [= <- _ _] _. apply Qltb_ge, (passes_left_done w) in Hcond.
        split; [simpl; lia | now intros ? ? []]. }
    apply Qltb_lt, (passes_left_pos w) in Hcond.
    assert (Hone := loop_body_one_sample w st v p).
    destruct (loop_body w st v p) as [ev [v'| p' |]] eqn:Hbody;
      cbn [fst] in Hone.
    + destruct (scan_loop w st fuel v' p) as [[tr' out']|] eqn:Hrec;
        [|discriminate].
      unfold with_events. cbn [option_map fst snd]. intros [= <- ->] Hne.
      apply loop_body_continue in Hbody as (Ht & _ & _ & Hev).
      destruct (IH v' tr' ret q Hrec Hne) as [Hit Hchecks].
      rewrite (passes_left_exact_step w v v' Ht) in Hit. split.
      * rewrite iterations_app, Hone. lia.
      * intros cs r Hin. apply in_app_or in Hin as [Hin | Hin];
          [now apply (Hev cs) | now apply (Hchecks cs)].
    + intros [= _ <- _] Hne. now elim Hne.
    + discriminate.
Qed.

(** X9.  The scanner gives up only after the whole horizon: when it
    returns a non-zero value, that value is -1, [stop_point] is left as
    it was, every parking spot check on the way failed, and exactly
    [ceil(max_check_distance / 5)] passes were made (none when the
    horizon is not positive). *)
Theorem FindPullOverStop_failure_is_exhaustive :
  forall (w : World) (st : Store) (fuel : nat) (p q : PointENU)
         (tr : list Event) (ret : Z),
    FindPullOverStop w st fuel p = Some (tr, Done (ret, q)) ->
    ret <> 0%Z ->
    ret = (-1)%Z
    /\ q = p
    /\ iterations tr = scan_bound w
    /\ forall cs r, In (EvFindPullOverStop cs r) tr -> r <> 0%Z.
Proof.
  intros w st fuel p q tr ret Hrun Hne. unfold FindPullOverStop in Hrun.
  destruct (scan_loop_ret _ _ _ _ _ _ _ _ Hrun) as [-> | ->];
    [now elim Hne|].
  split; [reflexivity|].
  split; [exact (scan_loop_fail_keeps _ _ _ _ _ _ _ _ Hrun Hne)|].
  destruct (scan_loop_failed _ _ _ _ _ _ _ _ Hrun Hne) as [Hit Hchecks].
  split; [|exact Hchecks].
  rewrite passes_left_init in Hit. unfold scan_bound. lia.
Qed.

Lemma FindPullOverStop_failure_is_exhaustive_witness :
  iterations [EvGetLaneFromS 105; EvGetLaneFromS 110; EvGetLaneFromS 115;
              EvGetLaneFromS 120; EvGetLaneFromS 125; EvGetLaneFromS 130;
              EvGetLaneFromS 135; EvGetLaneFromS 140]
  = scan_bound world_long_plan.
Proof.
  destruct (FindPullOverStop_failure_is_exhaustive world_long_plan requested 8
              {| x := 7; y := 7; z := 7 |} {| x := 7; y := 7; z := 7 |}
              [EvGetLaneFromS 105; EvGetLaneFromS 110; EvGetLaneFromS 115;
               EvGetLaneFromS 120; EvGetLaneFromS 125; EvGetLaneFromS 130;
               EvGetLaneFromS 135; EvGetLaneFromS 140] (-1)%Z)
    as (_ & _ & Hit & _).
  - reflexivity.
  - discriminate.
  - exact Hit.
Defined.

(** X10.  A [plan_distance] a full step beyond the scan horizon can never
    be reached: with [max_check_distance + 5 <= plan_distance] the scanner
    returns -1 on every road, however free it is. *)
Theorem FindPullOverStop_plan_beyond_horizon :
  forall (w : World) (st : Store) (fuel : nat) (p q : PointENU)
         (tr : list Event) (ret : Z),
    max_check_distance (pull_over_config w) + 5
      <= plan_distance (pull_over_config w) ->
    FindPullOverStop w st fuel p = Some (tr, Done (ret, q)) ->
    ret = (-1)%Z /\ q = p.
Proof.
  intros w st fuel p q tr ret Hplan Hrun.
  destruct (Z.eq_dec ret 0) as [-> | Hne].
  - exfalso. unfold FindPullOverStop in Hrun.
    destruct (scan_loop_found w st p fuel (scan_init w) tr q)
      as (cs & tr0 & _ & _ & _ & _ & _ & Hreach & Hmax);
      [apply Qle_refl | exact Hrun |].
    cbn [scan_init check_s check_length total_check_length] in Hreach, Hmax.
    unfold kDistanceUnit in *. lra.
  - unfold FindPullOverStop in Hrun.
    destruct (scan_loop_ret _ _ _ _ _ _ _ _ Hrun) as [-> | ->];
      [now elim Hne|].
    split; [reflexivity|].
    exact (scan_loop_fail_keeps _ _ _ _ _ _ _ _ Hrun Hne).
Qed.

Lemma FindPullOverStop_plan_beyond_horizon_witness :
  (-1)%Z = (-1)%Z
  /\ {| x := 7; y := 7; z := 7 |} = {| x := 7; y := 7; z := 7 |}.
Proof.
  apply (FindPullOverStop_plan_beyond_horizon world_long_plan requested 8
           {| x := 7; y := 7; z := 7 |} {| x := 7; y := 7; z := 7 |}
           [EvGetLaneFromS 105; EvGetLaneFromS 110; EvGetLaneFromS 115;
            EvGetLaneFromS 120; EvGetLaneFromS 125; EvGetLaneFromS 130;
            EvGetLaneFromS 135; EvGetLaneFromS 140] (-1)%Z).
  - discriminate.
  - reflexivity.
Defined.

(** ** One cycle of the rule *)

Lemma BuildStopDecision_frame w st line p h :
  BuildStopDecision w st line p h = ((-1)%Z, st)
  \/ exists o wall,
      CreateStopObstacle w (virtual_obstacle_id w st) line = Some o
      /\ AddObstacle w o = Some wall
      /\ BuildStopDecision w st line p h
         = (0%Z,
            {| pull_over := pull_over st;
               path_obstacles := (path_obstacles st ++ [wall])%list;
               longitudinal_decisions :=
                 (longitudinal_decisions st
                  ++ [(RuleId_Name w, Id wall,
                       stop_decision_for w (x p) (y p) h)])%list |}).
Proof.
  unfold BuildStopDecision, virtual_obstacle_id.
  destruct (out_of_range w line); [now left|].
  destruct (CreateStopObstacle w _ line) as [o|] eqn:Hcreate; [|now left].
  destruct (AddObstacle w o) as [wall|] eqn:Hadd; [|now left].
  right. now exists o, wall.
Qed.

Lemma ApplyRule_cases w st fuel tr st' :
  ApplyRule w st fuel = Some (tr, Done st') ->
  (IsPullOver w st = false /\ st' = st /\ tr = [])
  \/ (IsPullOver w st = true
      /\ exists p,
          GetPullOverStop w st fuel (PointENU_default w)
          = Some (tr, Done (0%Z, p))
          /\ st' = snd (BuildPullOverStop w st p))
  \/ (IsPullOver w st = true
      /\ exists ret p,
          GetPullOverStop w st fuel (PointENU_default w)
          = Some (tr, Done (ret, p))
          /\ ret <> 0%Z
          /\ st' = snd (BuildInLaneStop w st p)).
Proof.
  unfold ApplyRule. destruct (IsPullOver w st); cbn [negb].
  2:{ intros [= <- <-]. now left. }
  destruct (GetPullOverStop w st fuel (PointENU_default w))
    as [[tr0 [|[ret p]]]|]; try discriminate.
  destruct (Z.eqb_spec ret 0) as [-> | Hne]; intros [= <- <-].
  - right. left. split; [reflexivity|]. now exists p.
  - right. right. split; [reflexivity|]. now exists ret, p.
Qed.

(** What one cycle does to the path decision. *)
Lemma ApplyRule_frame w st fuel tr st' :
  ApplyRule w st fuel = Some (tr, Done st') ->
  (path_obstacles st' = path_obstacles st
   /\ longitudinal_decisions st' = longitudinal_decisions st)
  \/ exists line o wall d,
      CreateStopObstacle w (virtual_obstacle_id w st) line = Some o
      /\ AddObstacle w o = Some wall
      /\ path_obstacles st' = (path_obstacles st ++ [wall])%list
      /\ longitudinal_decisions st'
         = (longitudinal_decisions st ++ [(RuleId_Name w, Id wall, d)])%list
      /\ distance_s d = - stop_distance (pull_over_config w)
      /\ z (sd_stop_point d) = 0.
Proof.
  intros Hrun.
  assert (Hbuild : forall line p h st1,
             st1 = snd (BuildStopDecision w st line p h) ->
             (path_obstacles st1 = path_obstacles st
              /\ longitudinal_decisions st1 = longitudinal_decisions st)
             \/ exists line o wall d,
                 CreateStopObstacle w (virtual_obstacle_id w st) line = Some o
                 /\ AddObstacle w o = Some wall
                 /\ path_obstacles st1 = (path_obstacles st ++ [wall])%list
                 /\ longitudinal_decisions st1
                    = (longitudinal_decisions st
                       ++ [(RuleId_Name w, Id wall, d)])%list
                 /\ distance_s d = - stop_distance (pull_over_config w)
                 /\ z (sd_stop_point d) = 0).
  { intros line p h st1 ->.
    destruct (BuildStopDecision_frame w st line p h)
      as [-> | (o & wall & Hcreate & Hadd & ->)]; [now left|].
    right. exists line, o, wall, (stop_decision_for w (x p) (y p) h).
    repeat split; [exact Hcreate | exact Hadd | reflexivity..]. }
  destruct (ApplyRule_cases _ _ _ _ _ Hrun)
    as [(_ & -> & _) | [(_ & p & _ & ->) | (_ & ret & p & _ & _ & ->)]].
  - now left.
  - destruct (BuildPullOverStop_decisions w st p) as [Hdec Hobs].
    cbv zeta in Hdec, Hobs. rewrite Hdec, Hobs. now eapply Hbuild.
  - rewrite BuildInLaneStop_store. cbn [clear_pull_over path_obstacles
      longitudinal_decisions]. now eapply Hbuild.
Qed.

(** X11.  One cycle only ever appends to the path decision: it leaves the
    obstacles and stop decisions it found in place and adds either
    nothing or exactly one stop wall, made by the frame under the
    virtual obstacle id of the pull-over reason, with one stop decision
    registered under the rule's name and the wall's id, with
    [distance_s = - stop_distance] and a stop point at z = 0. *)
Theorem ApplyRule_appends_at_most_one_stop :
  forall (w : World) (st st' : Store) (fuel : nat) (tr : list Event),
    ApplyRule w st fuel = Some (tr, Done st') ->
    (path_obstacles st' = path_obstacles st
     /\ longitudinal_decisions st' = longitudinal_decisions st)
    \/ exists line o wall d,
        CreateStopObstacle w (virtual_obstacle_id w st) line = Some o
        /\ AddObstacle w o = Some wall
        /\ path_obstacles st' = (path_obstacles st ++ [wall])%list
        /\ longitudinal_decisions st'
           = (longitudinal_decisions st ++ [(RuleId_Name w, Id wall, d)])%list
        /\ distance_s d = - stop_distance (pull_over_config w)
        /\ z (sd_stop_point d) = 0.
Proof.
  intros w st st' fuel tr Hrun. exact (ApplyRule_frame w st fuel tr st' Hrun).
Qed.

Lemma ApplyRule_appends_at_most_one_stop_witness :
  (path_obstacles (snd (BuildPullOverStop world_scenario cached_110
                          {| x := 110; y := -2.15; z := 0 |}))
   = path_obstacles cached_110
   /\ longitudinal_decisions
        (snd (BuildPullOverStop world_scenario cached_110
                {| x := 110; y := -2.15; z := 0 |}))
      = longitudinal_decisions cached_110)
  \/ exists line o wall d,
      CreateStopObstacle world_scenario
        (virtual_obstacle_id world_scenario cached_110) line = Some o
      /\ AddObstacle world_scenario o = Some wall
      /\ path_obstacles (snd (BuildPullOverStop world_scenario cached_110
                                {| x := 110; y := -2.15; z := 0 |}))
         = (path_obstacles cached_110 ++ [wall])%list
      /\ longitudinal_decisions
           (snd (BuildPullOverStop world_scenario cached_110
                   {| x := 110; y := -2.15; z := 0 |}))
         = (longitudinal_decisions cached_110
            ++ [(RuleId_Name world_scenario, Id wall, d)])%list
      /\ distance_s d = - stop_distance (pull_over_config world_scenario)
      /\ z (sd_stop_point d) = 0.
Proof.
  apply (ApplyRule_appends_at_most_one_stop world_scenario cached_110 _ 0 []).
  reflexivity.
Defined.

(** X12.  When the stop walls the frame creates come out of the reference
    line info as virtual obstacles, a cycle does not change what
    [IsValidStop] answers: the wall the rule adds for itself never blocks
    a parking spot. *)
Theorem ApplyRule_keeps_validity :
  forall (w : World) (st st' : Store) (fuel : nat) (tr : list Event),
    (forall id line o wall,
        CreateStopObstacle w id line = Some o ->
        AddObstacle w o = Some wall ->
        IsVirtual (obstacle wall) = true) ->
    ApplyRule w st fuel = Some (tr, Done st') ->
    forall sl, IsValidStop w st' sl = IsValidStop w st sl.
Proof.
  intros w st st' fuel tr Hvirtual Hrun sl.
  unfold IsValidStop.
  destruct (ApplyRule_frame _ _ _ _ _ Hrun)
    as [[-> _] | (line & o & wall & d & Hcreate & Hadd & -> & _)];
    [reflexivity|].
  destruct (out_of_range w (s sl)); [reflexivity|].
  destruct (Qltb _ _); [reflexivity|].
  rewrite check_obstacles_app, check_obstacles_cons.
  replace (blocks (parking_spot_boundary w sl) wall) with false.
  - simpl. now rewrite andb_true_r.
  - symmetry. apply blocks_false_iff. left.
    exact (Hvirtual _ line o wall Hcreate Hadd).
Qed.

Lemma ApplyRule_keeps_validity_witness :
  IsValidStop world_scenario
    (snd (BuildPullOverStop world_scenario cached_110
            {| x := 110; y := -2.15; z := 0 |}))
    {| s := 110; l := -2.15 |}
  = IsValidStop world_scenario cached_110 {| s := 110; l := -2.15 |}.
Proof.
  apply (ApplyRule_keeps_validity world_scenario cached_110 _ 0 []).
  - intros id line o wall [= <-] [= <-]. reflexivity.
  - reflexivity.
Defined.

(** ** From one cycle to the next *)

Lemma BuildInLaneStop_clears w st p :
  pull_over (snd (BuildInLaneStop w st p)) = None.
Proof.
  now rewrite BuildInLaneStop_store.
Qed.

(** X13.  A fallback cycle erases the pull-over request itself, not only
    the cached points: on the status it leaves, [IsPullOver] is false,
    and the next [ApplyRule], on any reference line and frame, returns
    at once without a lane lookup and without touching the store, until
    [in_pull_over] is set again from outside. *)
Theorem fallback_deactivates_rule :
  forall (w : World) (st : Store) (fuel : nat) (tr : list Event) (ret : Z)
         (p : PointENU),
    IsPullOver w st = true ->
    GetPullOverStop w st fuel (PointENU_default w) = Some (tr, Done (ret, p)) ->
    ret <> 0%Z ->
    exists st',
      ApplyRule w st fuel = Some (tr, Done st')
      /\ forall (w2 : World) (frame : Store) (fuel2 : nat),
          IsPullOver w2 (next_cycle frame st') = false
          /\ ApplyRule w2 (next_cycle frame st') fuel2
             = Some ([], Done (next_cycle frame st')).
Proof.
  intros w st fuel tr ret p Hon Hget Hne.
  eexists. split.
  { rewrite (ApplyRule_active w st fuel Hon), Hget.
    apply Z.eqb_neq in Hne. rewrite Hne. reflexivity. }
  intros w2 frame fuel2.
  assert (Hoff : IsPullOver w2 (next_cycle frame (snd (BuildInLaneStop w st p)))
                 = false).
  { unfold IsPullOver, has_pull_over, next_cycle. cbn [pull_over].
    now rewrite BuildInLaneStop_clears. }
  split; [exact Hoff|]. unfold ApplyRule. now rewrite Hoff.
Qed.

Lemma fallback_deactivates_rule_witness :
  exists st',
    ApplyRule world_turning passed_cache 8
    = Some ([EvGetLaneFromS 105; EvGetLaneFromS 110; EvGetLaneFromS 115;
             EvGetLaneFromS 120; EvGetLaneFromS 125; EvGetLaneFromS 130;
             EvGetLaneFromS 135; EvGetLaneFromS 140], Done st')
    /\ ApplyRule world_no_lanes (next_cycle requested st') 8
       = Some ([], Done (next_cycle requested st')).
Proof.
  destruct (fallback_deactivates_rule world_turning passed_cache 8
              [EvGetLaneFromS 105; EvGetLaneFromS 110; EvGetLaneFromS 115;
               EvGetLaneFromS 120; EvGetLaneFromS 125; EvGetLaneFromS 130;
               EvGetLaneFromS 135; EvGetLaneFromS 140]
              (-1)%Z {| x := 50; y := -2.15; z := 0 |})
    as (st' & Hrun & Hnext).
  - reflexivity.
  - reflexivity.
  - discriminate.
  - exists st'. split; [exact Hrun|].
    exact (proj2 (Hnext world_no_lanes requested 8%nat)).
Defined.

(** X14.  After an active cycle the status is never half filled: either
    the whole pull_over status is gone (fallback), or it holds a start
    point, a stop point and a heading together, with [in_pull_over] and
    the reason as they were (full pull-over), whatever the status held
    when the cycle began. *)
Theorem ApplyRule_status_all_or_nothing :
  forall (w : World) (st st' : Store) (fuel : nat) (tr : list Event),
    IsPullOver w st = true ->
    ApplyRule w st fuel = Some (tr, Done st') ->
    pull_over st' = None
    \/ exists po sp cp h,
        pull_over st' = Some po
        /\ status_start_point po = Some sp
        /\ status_stop_point po = Some cp
        /\ status_stop_point_heading po = Some h
        /\ in_pull_over po = true
        /\ reason po = reason (get_pull_over w st).
Proof.
  intros w st st' fuel tr Hon Hrun.
  destruct (ApplyRule_cases _ _ _ _ _ Hrun)
    as [(Hoff & _) | [(_ & p & _ & ->) | (_ & ret & p & _ & _ & ->)]].
  - rewrite Hon in Hoff. discriminate.
  - right. rewrite BuildPullOverStop_status. cbv zeta.
    eexists _, _, _, _. split; [reflexivity|]. cbn.
    repeat (split; [reflexivity|]). split; [|reflexivity].
    unfold IsPullOver in Hon. now apply andb_true_iff in Hon.
  - left. apply BuildInLaneStop_clears.
Qed.

Lemma ApplyRule_status_all_or_nothing_witness :
  pull_over (snd (BuildPullOverStop world_scenario half_cached
                    {| x := 110; y := - (3.5 - 2.1 / 2 - 0.3); z := 0 |}))
  = None
  \/ exists po sp cp h,
      pull_over (snd (BuildPullOverStop world_scenario half_cached
                        {| x := 110; y := - (3.5 - 2.1 / 2 - 0.3); z := 0 |}))
      = Some po
      /\ status_start_point po = Some sp
      /\ status_stop_point po = Some cp
      /\ status_stop_point_heading po = Some h
      /\ in_pull_over po = true
      /\ reason po = reason (get_pull_over world_scenario half_cached).
Proof.
  apply (ApplyRule_status_all_or_nothing world_scenario half_cached _ 2
           [EvGetLaneFromS 105; EvGetLaneFromS 110; EvFindPullOverStop 110 0]).
  - reflexivity.
  - reflexivity.
Defined.

Lemma GetPullOverStop_found w st fuel p tr q :
  GetPullOverStop w st fuel p = Some (tr, Done (0%Z, q)) ->
  (tr = [] /\ IsValidStop w st (XYToSL w (xy_of q)) = true
   /\ exists sp cp,
       status_start_point (get_pull_over w st) = Some sp
       /\ status_stop_point (get_pull_over w st) = Some cp
       /\ q = set_y (set_x p (x cp)) (y cp))
  \/ exists p1, FindPullOverStop w st fuel p1 = Some (tr, Done (0%Z, q))
                /\ z p1 = z p
                /\ forall sp cp,
                    status_start_point (get_pull_over w st) = Some sp ->
                    status_stop_point (get_pull_over w st) = Some cp ->
                    IsValidStop w st (XYToSL w (xy_of cp)) = false.
Proof.
  intros Hget.
  destruct (status_start_point (get_pull_over w st)) as [sp|] eqn:Hsp;
    [destruct (status_stop_point (get_pull_over w st)) as [cp|] eqn:Hcp|].
  - destruct (IsValidStop w st (XYToSL w (xy_of cp))) eqn:Hval.
    + rewrite (GetPullOverStop_valid_cache w st fuel p sp cp Hsp Hcp Hval)
        in Hget.
      injection Hget as <- <-. left. split; [reflexivity|].
      split; [exact Hval|]. now exists sp, cp.
    + rewrite (GetPullOverStop_invalid_cache w st fuel p sp cp Hsp Hcp Hval)
        in Hget.
      right. eexists. split; [exact Hget|]. split; [reflexivity|].
      now intros sp' cp' _ [= <-].
  - rewrite (GetPullOverStop_no_cache w st fuel p) in Hget by now right.
    right. exists p. split; [exact Hget|]. split; [reflexivity|]. discriminate.
  - rewrite (GetPullOverStop_no_cache w st fuel p) in Hget by now left.
    right. exists p. split; [exact Hget|]. split; [reflexivity|]. discriminate.
Qed.

(** X15.  [GetPullOverStop] answers 0 or -1, and a point it answers 0 for
    has passed the validator in this very cycle: it is either the cached
    stop point, valid at its projection on the reference line, or the
    Cartesian image of an SL point the scanner validated.  It never
    changes the z of its out-parameter. *)
Theorem GetPullOverStop_sound :
  forall (w : World) (st : Store) (fuel : nat) (p q : PointENU)
         (tr : list Event) (ret : Z),
    GetPullOverStop w st fuel p = Some (tr, Done (ret, q)) ->
    (ret = 0%Z \/ ret = (-1)%Z)
    /\ z q = z p
    /\ (ret = 0%Z ->
        exists sl,
          IsValidStop w st sl = true
          /\ (sl = XYToSL w (xy_of q) \/ xy_of q = SLToXY w sl)).
Proof.
  intros w st fuel p q tr ret Hget.
  destruct (Z.eq_dec ret 0) as [-> | Hne].
  - split; [now left|].
    destruct (GetPullOverStop_found _ _ _ _ _ _ Hget)
      as [(_ & Hval & sp & cp & _ & _ & ->) | (p1 & Hscan & Hz & _)].
    + split; [reflexivity|]. intros _. eexists. split; [exact Hval|].
      now left.
    + unfold FindPullOverStop in Hscan.
      destruct (scan_loop_found w st p1 fuel (scan_init w) tr q)
        as (cs & tr0 & _ & Hval & Hxy & Hzq & _);
        [apply Qle_refl | exact Hscan |].
      split; [congruence|]. intros _. eexists. split; [exact Hval|].
      now right.
  - destruct (GetPullOverStop_failed_point _ _ _ _ _ _ _ Hget Hne)
      as [Hscan Hq].
    unfold FindPullOverStop in Hscan.
    split; [|split; [|intros H0; now elim Hne]].
    + destruct (status_start_point (get_pull_over w st)) as [sp|] eqn:Hsp;
        [destruct (status_stop_point (get_pull_over w st)) as [cp|] eqn:Hcp|].
      * destruct (IsValidStop w st (XYToSL w (xy_of cp))) eqn:Hval.
        -- rewrite (GetPullOverStop_valid_cache w st fuel p sp cp Hsp Hcp
                      Hval) in Hget.
           injection Hget as _ <- _. now left.
        -- rewrite (GetPullOverStop_invalid_cache w st fuel p sp cp Hsp Hcp
                      Hval) in Hget.
           exact (scan_loop_ret _ _ _ _ _ _ _ _ Hget).
      * rewrite (GetPullOverStop_no_cache w st fuel p) in Hget by now right.
        exact (scan_loop_ret _ _ _ _ _ _ _ _ Hget).
      * rewrite (GetPullOverStop_no_cache w st fuel p) in Hget by now left.
        exact (scan_loop_ret _ _ _ _ _ _ _ _ Hget).
    + destruct (status_start_point (get_pull_over w st)) as [sp|];
        [destruct (status_stop_point (get_pull_over w st)) as [cp|]|];
        now subst q.
Qed.

Lemma GetPullOverStop_sound_witness :
  z {| x := 110; y := - (3.5 - 2.1 / 2 - 0.3); z := 9 |} = 9
  /\ exists sl,
      IsValidStop world_scenario requested sl = true
      /\ (sl = XYToSL world_scenario
                 (xy_of {| x := 110; y := - (3.5 - 2.1 / 2 - 0.3); z := 9 |})
          \/ xy_of {| x := 110; y := - (3.5 - 2.1 / 2 - 0.3); z := 9 |}
             = SLToXY world_scenario sl).
Proof.
  destruct (GetPullOverStop_sound world_scenario requested 2
              {| x := 1; y := 2; z := 9 |}
              {| x := 110; y := - (3.5 - 2.1 / 2 - 0.3); z := 9 |}
              [EvGetLaneFromS 105; EvGetLaneFromS 110;
               EvFindPullOverStop 110 0] 0%Z)
    as (_ & Hz & Hvalid).
  - reflexivity.
  - split; [exact Hz | apply Hvalid; reflexivity].
Defined.

(** X16.  On a reference line whose [XYToSL] undoes [SLToXY], a stop
    point chosen in one cycle, whether found by the scanner or reused, is
    reused in the next cycle when the vehicle, the reference line and the
    obstacles are the same: [GetPullOverStop] returns the same x and y
    with no lane lookup. *)
Theorem chosen_stop_is_reused_next_cycle :
  forall (w : World) (st st' : Store) (fuel : nat) (tr : list Event)
         (p : PointENU),
    (forall sl, XYToSL w (SLToXY w sl) = sl) ->
    IsPullOver w st = true ->
    GetPullOverStop w st fuel (PointENU_default w) = Some (tr, Done (0%Z, p)) ->
    ApplyRule w st fuel = Some (tr, Done st') ->
    forall (frame : Store) (fuel2 : nat) (q : PointENU),
      path_obstacles frame = path_obstacles st ->
      exists q',
        GetPullOverStop w (next_cycle frame st') fuel2 q
        = Some ([], Done (0%Z, q'))
        /\ xy_of q' = xy_of p.
Proof.
  intros w st st' fuel tr p Hround Hon Hget Hrun frame fuel2 q Hframe.
  assert (Hval : IsValidStop w st (XYToSL w (xy_of p)) = true).
  { destruct (GetPullOverStop_found _ _ _ _ _ _ Hget)
      as [(_ & Hval & _) | (p1 & Hscan & _)]; [exact Hval|].
    unfold FindPullOverStop in Hscan.
    destruct (scan_loop_found w st p1 fuel (scan_init w) tr p)
      as (cs & tr0 & _ & Hval & Hxy & _);
      [apply Qle_refl | exact Hscan |].
    now rewrite Hxy, Hround. }
  rewrite (ApplyRule_active w st fuel Hon), Hget in Hrun.
  cbn in Hrun. injection Hrun as <-.
  assert (Hstatus := BuildPullOverStop_status w st p). cbv zeta in Hstatus.
  eexists. split.
  - eapply GetPullOverStop_valid_cache.
    + unfold get_pull_over, next_cycle. cbn [pull_over].
      rewrite Hstatus. reflexivity.
    + unfold get_pull_over, next_cycle. cbn [pull_over].
      rewrite Hstatus. reflexivity.
    + unfold IsValidStop in *. cbn [next_cycle path_obstacles].
      rewrite Hframe. exact Hval.
  - reflexivity.
Qed.

Lemma chosen_stop_is_reused_next_cycle_witness :
  exists q',
    GetPullOverStop world_scenario
      (next_cycle requested
         (snd (BuildPullOverStop world_scenario requested
                 {| x := 110; y := - (3.5 - 2.1 / 2 - 0.3); z := 0 |})))
      0 {| x := 0; y := 0; z := 0 |}
    = Some ([], Done (0%Z, q'))
    /\ xy_of q' = {| vx := 110; vy := - (3.5 - 2.1 / 2 - 0.3) |}.
Proof.
  apply (chosen_stop_is_reused_next_cycle world_scenario requested _ 2
           [EvGetLaneFromS 105; EvGetLaneFromS 110; EvFindPullOverStop 110 0]
           {| x := 110; y := - (3.5 - 2.1 / 2 - 0.3); z := 0 |}).
  - intros [s0 l0]. reflexivity.
  - reflexivity.
  - reflexivity.
  - reflexivity.
  - reflexivity.
Defined.

(** X17.  A cached stop point does not survive the approach: once its
    projection is less than [operation_length] ahead of the front edge,
    [GetPullOverStop] drops it and scans, and a point it then returns
    lies at a sampled arc length at least [operation_length] and
    [plan_distance] ahead, so strictly beyond the cached one. *)
Theorem close_cache_is_replaced :
  forall (w : World) (st : Store) (fuel : nat) (p q sp cp : PointENU)
         (tr : list Event),
    status_start_point (get_pull_over w st) = Some sp ->
    status_stop_point (get_pull_over w st) = Some cp ->
    s (XYToSL w (xy_of cp)) - end_s (AdcSlBoundary w)
      < operation_length (pull_over_config w) ->
    GetPullOverStop w st fuel p = Some (tr, Done (0%Z, q)) ->
    exists cs,
      In (EvFindPullOverStop cs 0) tr
      /\ xy_of q = SLToXY w (stop_point_sl_at w cs)
      /\ s (XYToSL w (xy_of cp)) < cs
      /\ end_s (AdcSlBoundary w) + plan_distance (pull_over_config w) <= cs.
Proof.
  intros w st fuel p q sp cp tr Hsp Hcp Hclose Hget.
  assert (Hinv : IsValidStop w st (XYToSL w (xy_of cp)) = false).
  { unfold IsValidStop. destruct (out_of_range w _); [reflexivity|].
    apply Qltb_lt in Hclose. now rewrite Hclose. }
  rewrite (GetPullOverStop_invalid_cache w st fuel p sp cp Hsp Hcp Hinv)
    in Hget.
  unfold FindPullOverStop in Hget.
  destruct (scan_loop_found w st (set_y (set_x p (x cp)) (y cp)) fuel
              (scan_init w) tr q)
    as (cs & tr0 & Htr & Hval & Hxy & _ & _ & Hplan & _);
    [apply Qle_refl | exact Hget |].
  cbn [scan_init check_s check_length] in Hplan.
  apply IsValidStop_iff in Hval as (_ & _ & Hop & _).
  cbn [stop_point_sl_at s] in Hop.
  exists cs. split; [|split; [exact Hxy | split; lra]].
  rewrite Htr. apply in_or_app. right. now left.
Qed.

Lemma close_cache_is_replaced_witness :
  exists cs,
    In (EvFindPullOverStop cs 0)
       [EvGetLaneFromS 105; EvGetLaneFromS 110; EvFindPullOverStop 110 0]
    /\ 102 < cs
    /\ 100 + 10 <= cs.
Proof.
  destruct (close_cache_is_replaced world_scenario close_cache 2
              {| x := 0; y := 0; z := 0 |}
              {| x := 110; y := - (3.5 - 2.1 / 2 - 0.3); z := 0 |}
              {| x := 99; y := 0; z := 0 |}
              {| x := 102; y := -2.15; z := 0 |}
              [EvGetLaneFromS 105; EvGetLaneFromS 110;
               EvFindPullOverStop 110 0])
    as (cs & Hin & _ & Hfar & Hplan); try reflexivity.
  exists cs. split; [exact Hin|]. split; [exact Hfar | exact Hplan].
Defined.

(** ** The run behind a selected site *)

Lemma loop_body_sample w st v p :
  forall c, In (EvGetLaneFromS c) (fst (loop_body w st v p)) ->
            c = check_s v + kDistanceUnit.
Proof.
  intros c. unfold loop_body. cbn [advance extend check_s check_length].
  assert (Hone : forall e, In (EvGetLaneFromS c) [EvGetLaneFromS e] -> c = e)
    by (intros e [[= ->] | []]; reflexivity).
  destruct (next_lane _ _) as [lane|]; [|apply Hone].
  destruct (negb (LaneTurn_eqb _ _)); [apply Hone|].
  destruct (negb (rightmost_driving_lane _ _)); [apply Hone|].
  destruct (OnOverlap _ _); [apply Hone|].
  destruct (Qgeb _ _); [|apply Hone].
  destruct (FindPullOverStop_at _ _ _ _) as [ret point].
  destruct (negb _); cbn [fst];
    (intros [[= ->] | [H | []]]; [reflexivity | discriminate]).
Qed.

Lemma loop_body_run w st v p :
  match snd (loop_body w st v p) with
  | Continue v' =>
      check_length v' = 0
      \/ (check_length v' = check_length v + kDistanceUnit
          /\ sample_qualifies w (check_s v + kDistanceUnit))
  | Return0 _ => sample_qualifies w (check_s v + kDistanceUnit)
  | NullDeref => True
  end.
Proof.
  unfold loop_body. cbn [advance extend check_s check_length].
  destruct (next_lane _ _) as [lane|] eqn:Hlane; [|exact I].
  destruct (LaneTurn_eqb (turn lane) NO_TURN) eqn:Hturn; cbn [negb snd];
    [|now left].
  destruct (rightmost_driving_lane w _) eqn:Hright; cbn [negb snd];
    [|now left].
  destruct (OnOverlap w _) eqn:Hover; cbn [snd]; [now left|].
  assert (Hq : sample_qualifies w (check_s v + kDistanceUnit)).
  { exists lane. split; [exact Hlane|]. unfold qualifies.
    now rewrite Hturn, Hright, Hover. }
  destruct (Qgeb _ _); cbn [snd]; [|right; split; [reflexivity | exact Hq]].
  destruct (FindPullOverStop_at _ _ _ _) as [ret point].
  destruct (negb _); cbn [snd]; [now left | exact Hq].
Qed.

(** A successful scan from [v] on, given the samples [past] made so far:
    every sample of the run that ends at the selected arc length
    qualified. *)
Lemma scan_loop_run w st p :
  forall fuel v tr q (past : list double),
    0 <= check_length v ->
    (forall c, In c past -> c <= check_s v) ->
    (forall c, In c past -> check_s v - check_length v < c ->
               sample_qualifies w c) ->
    scan_loop w st fuel v p = Some (tr, Done (0%Z, q)) ->
    exists cs tr0,
      tr = (tr0 ++ [EvFindPullOverStop cs 0])%list
      /\ In (EvGetLaneFromS cs) tr
      /\ forall c,
          In c past \/ In (EvGetLaneFromS c) tr ->
          cs - plan_distance (pull_over_config w) < c ->
          c <= cs /\ sample_qualifies w c.
Proof.
  induction fuel as [|fuel IH]; intros v tr q past Hpos Hle Hrun; simpl.
  - destruct (Qltb _ _); discriminate.
  - destruct (Qltb _ _); [|discriminate].
    assert (Hnow := loop_body_run w st v p).
    assert (Hsample := loop_body_sample w st v p).
    destruct (loop_body w st v p) as [ev [v'| p' |]] eqn:Hbody;
      cbn [fst snd] in Hnow, Hsample.
    + destruct (scan_loop w st fuel v' p) as [[tr' out']|] eqn:Hrec;
        [|discriminate].
      unfold with_events. cbn [option_map fst snd]. intros [= <- ->].
      apply loop_body_continue in Hbody as (_ & Hs & Hl & _).
      destruct (IH v' tr' q (past ++ [check_s v + kDistanceUnit])%list)
        as (cs & tr0 & Htr & Hlast & Hall).
      * destruct Hl as [-> | ->]; unfold kDistanceUnit; lra.
      * intros c Hin. rewrite Hs. apply in_app_or in Hin as [Hin | [<- | []]];
          [specialize (Hle c Hin); unfold kDistanceUnit; lra | apply Qle_refl].
      * intros c Hin Hc. rewrite Hs in Hc.
        apply in_app_or in Hin as [Hin | [<- | []]].
        -- destruct Hnow as [Hzero | [Hgrow _]].
           ++ rewrite Hzero in Hc. specialize (Hle c Hin).
              unfold kDistanceUnit in *. lra.
           ++ rewrite Hgrow in Hc. apply (Hrun c Hin).
              unfold kDistanceUnit in *. lra.
        -- destruct Hnow as [Hzero | [_ Hq]]; [|exact Hq].
           rewrite Hzero in Hc. unfold kDistanceUnit in *. lra.
      * exact Hrec.
      * exists cs, (ev ++ tr0)%list. split; [now rewrite Htr, app_assoc|].
        split; [apply in_or_app; now right|].
        intros c Hin. apply Hall.
        destruct Hin as [Hin | Hin]; [left; apply in_or_app; now left|].
        apply in_app_or in Hin as [Hin | Hin]; [|now right].
        left. apply in_or_app. right. left. symmetry. now apply Hsample.
    + intros [= <- <-].
      apply loop_body_return in Hbody as (-> & Hplan & _).
      exists (check_s v + kDistanceUnit),
        [EvGetLaneFromS (check_s v + kDistanceUnit)].
      split; [reflexivity|]. split; [now left|]. intros c Hin Hc.
      destruct Hin as [Hin | [[= <-] | [H | []]]].
      * split; [specialize (Hle c Hin); unfold kDistanceUnit; lra|].
        apply (Hrun c Hin). unfold kDistanceUnit in *. lra.
      * split; [apply Qle_refl | exact Hnow].
      * discriminate.
    + discriminate.
Qed.

(** X18.  The site the scanner selects ends a qualifying run at least
    [plan_distance] long: every arc length it sampled within
    [plan_distance] behind the selected one had a lane that is straight,
    rightmost among driving lanes and outside every overlap zone.  A turn
    lane or an overlap zone at a sample thus rules out every site less
    than [plan_distance] past it. *)
Theorem FindPullOverStop_site_ends_qualifying_run :
  forall (w : World) (st : Store) (fuel : nat) (p q : PointENU)
         (tr : list Event),
    FindPullOverStop w st fuel p = Some (tr, Done (0%Z, q)) ->
    exists cs tr0,
      tr = (tr0 ++ [EvFindPullOverStop cs 0])%list
      /\ In (EvGetLaneFromS cs) tr
      /\ forall c,
          In (EvGetLaneFromS c) tr ->
          cs - plan_distance (pull_over_config w) < c ->
          c <= cs /\ sample_qualifies w c.
Proof.
  intros w st fuel p q tr Hrun. unfold FindPullOverStop in Hrun.
  destruct (scan_loop_run w st p fuel (scan_init w) tr q [])
    as (cs & tr0 & Htr & Hlast & Hall);
    [apply Qle_refl | now intros ? [] | now intros ? [] | exact Hrun |].
  exists cs, tr0. split; [exact Htr|]. split; [exact Hlast|].
  intros c Hin. apply Hall. now right.
Qed.

Lemma FindPullOverStop_site_ends_qualifying_run_witness :
  exists cs tr0,
    [EvGetLaneFromS 105; EvGetLaneFromS 110; EvGetLaneFromS 115;
     EvFindPullOverStop 115 0]
    = (tr0 ++ [EvFindPullOverStop cs 0])%list
    /\ In (EvGetLaneFromS cs)
         [EvGetLaneFromS 105; EvGetLaneFromS 110; EvGetLaneFromS 115;
          EvFindPullOverStop 115 0]
    /\ forall c,
        In (EvGetLaneFromS c)
           [EvGetLaneFromS 105; EvGetLaneFromS 110; EvGetLaneFromS 115;
            EvFindPullOverStop 115 0] ->
        cs - plan_distance (pull_over_config world_crosswalk) < c ->
        c <= cs /\ sample_qualifies world_crosswalk c.
Proof.
  apply (FindPullOverStop_site_ends_qualifying_run world_crosswalk requested 3
           {| x := 0; y := 0; z := 0 |}
           {| x := 115; y := - (3.5 - 2.1 / 2 - 0.3); z := 0 |}).
  reflexivity.
Defined.

(** ** A cycle on a fully mapped road *)

(** X19.  When the lane lookup yields a lane with a non-empty id at every
    arc length, a cycle never faults: with [ceil(max_check_distance / 5)]
    passes of fuel [ApplyRule] returns a store, after at most that many
    lane lookups. *)
Theorem ApplyRule_total_with_lanes :
  forall (w : World) (st : Store) (fuel : nat),
    (forall v, next_lane EmptyString (GetLaneFromS w v) <> None) ->
    (scan_bound w <= fuel)%nat ->
    exists tr st',
      ApplyRule w st fuel = Some (tr, Done st')
      /\ (iterations tr <= scan_bound w)%nat.
Proof.
  intros w st fuel Hlanes Hfuel.
  unfold ApplyRule. destruct (IsPullOver w st); cbn [negb].
  2:{ eexists _, _. split; [reflexivity | apply Nat.le_0_l]. }
  assert (Hget : exists tr ret q,
             GetPullOverStop w st fuel (PointENU_default w)
             = Some (tr, Done (ret, q))
             /\ (iterations tr <= scan_bound w)%nat).
  { destruct (status_start_point (get_pull_over w st)) as [sp|] eqn:Hsp;
      [destruct (status_stop_point (get_pull_over w st)) as [cp|] eqn:Hcp|].
    - destruct (IsValidStop w st (XYToSL w (xy_of cp))) eqn:Hval.
      + rewrite (GetPullOverStop_valid_cache w st fuel _ sp cp Hsp Hcp Hval).
        eexists _, _, _. split; [reflexivity | apply Nat.le_0_l].
      + rewrite (GetPullOverStop_invalid_cache w st fuel _ sp cp Hsp Hcp Hval).
        now apply FindPullOverStop_total.
    - rewrite (GetPullOverStop_no_cache w st fuel) by now right.
      now apply FindPullOverStop_total.
    - rewrite (GetPullOverStop_no_cache w st fuel) by now left.
      now apply FindPullOverStop_total. }
  destruct Hget as (tr & ret & q & -> & Hit).
  destruct (ret =? 0)%Z; eexists _, _; (split; [reflexivity | exact Hit]).
Qed.

Lemma ApplyRule_total_with_lanes_witness :
  exists tr st',
    ApplyRule world_crosswalk requested 8 = Some (tr, Done st')
    /\ (iterations tr <= scan_bound world_crosswalk)%nat.
Proof.
  apply (ApplyRule_total_with_lanes world_crosswalk requested 8).
  - intros v. discriminate.
  - apply Nat.le_refl.
Defined.
